(** * audi_logger_plot: acquisition, cache, history and logging

    A shallow embedding of [audi_logger_plot.py]: the serial reader
    thread ([SerialReader.__init__], [SerialReader.run],
    [SerialReader._run_demo], [SerialReader.get_latest],
    [SerialReader.stop]), the plot timer
    callback ([update]) with its CSV writer and its bounded deques, and
    the fault decoder ([faultword_to_flags]).

    Python values are modelled as follows.
    - [bytes] is a list of [byte]; [str] is a list of Unicode code
      points ([N]);
    - [int] is [Z]; [float] is an IEEE 754 binary64 value ([spec_float]
      with [prec = 53], [emax = 1024], round to nearest even);
    - a row ([Dict[str, int]]) is a [gmap string Z];
    - [collections.deque(maxlen=n)] is a list with its bound;
    - the two threads are interleaved at the granularity of the lock:
      one loop iteration of the reader, one call of the timer callback,
      one call of [stop] are the atomic events. *)

From Stdlib Require Import ZArith NArith List Bool Lia.
From Stdlib Require Import Strings.String Strings.Byte.
From Stdlib Require Import Floats.SpecFloat.
From stdpp Require Import base option list gmap strings.

Set Default Proof Using "Type".

(* ================================================================= *)
(** ** Text primitives of the Python runtime *)

Module PyText.

Local Open Scope N_scope.

(** A [str] value: its code points. *)
Definition text := list N.

Definition LF : N := 10.
Definition CR : N := 13.
Definition SEMI : N := 59.

Definition in_range (lo hi c : N) : bool := (lo <=? c) && (c <=? hi).

Fixpoint drop_while (p : N → bool) (t : text) : text :=
  match t with
  | [] => []
  | c :: r => if p c then drop_while p r else t
  end.

Fixpoint take_while (p : N → bool) (t : text) : text :=
  match t with
  | [] => []
  | c :: r => if p c then c :: take_while p r else []
  end.

Definition is_nil {A} (l : list A) : bool :=
  match l with [] => true | _ => false end.

(** *** [bytes.decode(errors="ignore")]

    UTF-8 decoding.  A well-formed sequence (Unicode, table 3-7)
    yields its code point; any byte that does not start one is
    dropped and decoding resumes at the next byte. *)

Definition cp2 (b0 b1 : N) : N := (b0 - 0xC0) * 64 + (b1 - 0x80).
Definition cp3 (b0 b1 b2 : N) : N :=
  (b0 - 0xE0) * 4096 + (b1 - 0x80) * 64 + (b2 - 0x80).
Definition cp4 (b0 b1 b2 b3 : N) : N :=
  (b0 - 0xF0) * 262144 + (b1 - 0x80) * 4096 + (b2 - 0x80) * 64 + (b3 - 0x80).

Definition is_cont (b : N) : bool := in_range 0x80 0xBF b.

(** Admissible second byte after the lead byte [b0] of a three- or
    four-byte sequence. *)
Definition second_ok (b0 b1 : N) : bool :=
  if b0 =? 0xE0 then in_range 0xA0 0xBF b1
  else if b0 =? 0xED then in_range 0x80 0x9F b1
  else if b0 =? 0xF0 then in_range 0x90 0xBF b1
  else if b0 =? 0xF4 then in_range 0x80 0x8F b1
  else is_cont b1.

Fixpoint utf8_decode_ignore (bs : list N) : text :=
  match bs with
  | [] => []
  | b0 :: r0 =>
    if b0 <? 0x80 then b0 :: utf8_decode_ignore r0
    else if in_range 0xC2 0xDF b0 then
      match r0 with
      | b1 :: r1 =>
        if is_cont b1 then cp2 b0 b1 :: utf8_decode_ignore r1
        else utf8_decode_ignore r0
      | [] => utf8_decode_ignore r0
      end
    else if in_range 0xE0 0xEF b0 then
      match r0 with
      | b1 :: b2 :: r2 =>
        if second_ok b0 b1 && is_cont b2
        then cp3 b0 b1 b2 :: utf8_decode_ignore r2
        else utf8_decode_ignore r0
      | _ => utf8_decode_ignore r0
      end
    else if in_range 0xF0 0xF4 b0 then
      match r0 with
      | b1 :: b2 :: b3 :: r3 =>
        if second_ok b0 b1 && is_cont b2 && is_cont b3
        then cp4 b0 b1 b2 b3 :: utf8_decode_ignore r3
        else utf8_decode_ignore r0
      | _ => utf8_decode_ignore r0
      end
    else utf8_decode_ignore r0
  end.

Definition decode (line : list byte) : text :=
  utf8_decode_ignore (map Byte.to_N line).

(** *** [bytes.endswith(b"\r")] and [line[:-1]] *)

Definition endswith_cr (line : list byte) : bool :=
  match last line with
  | Some b => Byte.to_N b =? CR
  | None => false
  end.

(** *** [str.rstrip("\n")]: every trailing LF is removed. *)

Definition rstrip (c : N) (t : text) : text :=
  rev (drop_while (N.eqb c) (rev t)).

(** *** [str.split(";")]: never empty, keeps empty pieces. *)

Fixpoint split (sep : N) (t : text) : list text :=
  match t with
  | [] => [[]]
  | c :: r =>
    if c =? sep then [] :: split sep r
    else match split sep r with
         | tok :: toks => (c :: tok) :: toks
         | [] => [[c]]
         end
  end.

(** *** [int(str)]

    CPython first rewrites the string
    ([_PyUnicode_TransformDecimalAndSpaceToASCII]): a code point below
    127 stays; a Unicode white space becomes a blank; a Unicode decimal
    digit becomes the ASCII digit of its value; anything else becomes
    a question mark, where the string is cut.  The tables are those of
    the Unicode character database 14.0. *)

Definition unicode_space (c : N) : bool :=
  (c =? 0x85) || (c =? 0xA0) || (c =? 0x1680) || in_range 0x2000 0x200A c
  || (c =? 0x2028) || (c =? 0x2029) || (c =? 0x202F) || (c =? 0x205F)
  || (c =? 0x3000).

(** First code point of every run of ten decimal digits (category Nd). *)
Definition DECIMAL_ZEROS : list N :=
  [ 0x30; 0x660; 0x6f0; 0x7c0; 0x966; 0x9e6; 0xa66; 0xae6; 0xb66; 0xbe6;
    0xc66; 0xce6; 0xd66; 0xde6; 0xe50; 0xed0; 0xf20; 0x1040; 0x1090;
    0x17e0; 0x1810; 0x1946; 0x19d0; 0x1a80; 0x1a90; 0x1b50; 0x1bb0;
    0x1c40; 0x1c50; 0xa620; 0xa8d0; 0xa900; 0xa9d0; 0xa9f0; 0xaa50;
    0xabf0; 0xff10; 0x104a0; 0x10d30; 0x11066; 0x110f0; 0x11136;
    0x111d0; 0x112f0; 0x11450; 0x114d0; 0x11650; 0x116c0; 0x11730;
    0x118e0; 0x11950; 0x11c50; 0x11d50; 0x11da0; 0x16a60; 0x16ac0;
    0x16b50; 0x1d7ce; 0x1d7d8; 0x1d7e2; 0x1d7ec; 0x1d7f6; 0x1e140;
    0x1e2f0; 0x1e950; 0x1fbf0 ].

Definition unicode_decimal (c : N) : option N :=
  match List.find (fun z => in_range z (z + 9) c) DECIMAL_ZEROS with
  | Some z => Some (c - z)
  | None => None
  end.

Definition QUESTION : N := 63.

Fixpoint transform_decimal_and_space (t : text) : text :=
  match t with
  | [] => []
  | c :: r =>
    if c <? 127 then c :: transform_decimal_and_space r
    else if unicode_space c then 32 :: transform_decimal_and_space r
    else match unicode_decimal c with
         | Some d => (48 + d) :: transform_decimal_and_space r
         | None => [QUESTION]
         end
  end.

(** [Py_ISSPACE] *)
Definition is_space (c : N) : bool := in_range 9 13 c || (c =? 32).
Definition is_digit (c : N) : bool := in_range 48 57 c.
Definition UNDERSCORE : N := 95.
Definition PLUS : N := 43.
Definition MINUS : N := 45.
Definition is_digit_or_us (c : N) : bool := is_digit c || (c =? UNDERSCORE).

(** Two consecutive underscores. *)
Fixpoint double_us (t : text) : bool :=
  match t with
  | a :: ((b :: _) as r) => ((a =? UNDERSCORE) && (b =? UNDERSCORE)) || double_us r
  | _ => false
  end.

Definition starts_with_us (t : text) : bool :=
  match t with c :: _ => c =? UNDERSCORE | [] => false end.

Definition ends_with_us (t : text) : bool :=
  match last t with Some c => c =? UNDERSCORE | None => false end.

(** Value of a run of digits and (skipped) underscores, most
    significant digit first. *)
Definition digit_step (acc : Z) (c : N) : Z :=
  if c =? UNDERSCORE then acc else (acc * 10 + Z.of_N (c - 48))%Z.

Definition digits_value (t : text) : Z := fold_left digit_step t 0%Z.

(** [PyLong_FromString(s, base=10)] with the requirement that the
    whole string is consumed: blanks, an optional sign, digits with
    single inner underscores, blanks. *)
Definition strip_sign (s1 : text) : bool * text :=
  match s1 with
  | c :: r =>
    if c =? PLUS then (false, r)
    else if c =? MINUS then (true, r)
    else (false, s1)
  | [] => (false, s1)
  end.

Definition digits_to_end (neg : bool) (s2 : text) : option Z :=
  let body := take_while is_digit_or_us s2 in
  let rest := drop_while is_digit_or_us s2 in
  if is_nil body || starts_with_us body || double_us body || ends_with_us body
  then None
  else if is_nil (drop_while is_space rest)
  then Some (if neg then (- digits_value body)%Z else digits_value body)
  else None.

Definition long_from_string (s : text) : option Z :=
  let '(neg, s2) := strip_sign (drop_while is_space s) in
  digits_to_end neg s2.

(** [int(s)] for a [str]; [None] is [ValueError].  The interpreter's
    process-wide cap on the number of digits of a literal is a run-time
    setting and is not part of this model. *)
Definition py_int (s : text) : option Z :=
  long_from_string (transform_decimal_and_space s).






End PyText.

(* ================================================================= *)
(** ** Numbers of the Python runtime: [int] and [float] *)

Module PyNum.

Local Open Scope Z_scope.

(** binary64 *)
Definition prec : Z := 53.
Definition emax : Z := 1024.

Inductive pynum :=
  | PyInt (z : Z)
  | PyFloat (f : spec_float).

Definition sf_is_inf (f : spec_float) : bool :=
  match f with S754_infinity _ => true | _ => false end.

Definition sf_is_zero (f : spec_float) : bool :=
  match f with S754_zero _ => true | _ => false end.

(** Neither an infinity nor a NaN. *)
Definition sf_finite (f : spec_float) : bool :=
  match f with S754_zero _ | S754_finite _ _ _ => true | _ => false end.

(** [PyLong_AsDouble]: the nearest float; [None] is [OverflowError]. *)
Definition float_of_int (z : Z) : option spec_float :=
  let f := binary_normalize prec emax z 0 false in
  if sf_is_inf f then None else Some f.

Definition as_float (a : pynum) : option spec_float :=
  match a with
  | PyInt z => float_of_int z
  | PyFloat f => Some f
  end.

(** [a + b], [a - b], [a * b]: exact on two ints; otherwise both
    operands are taken as floats. *)
Definition py_add (a b : pynum) : option pynum :=
  match a, b with
  | PyInt x, PyInt y => Some (PyInt (x + y))
  | _, _ => x ← as_float a; y ← as_float b; Some (PyFloat (SFadd prec emax x y))
  end.

Definition py_sub (a b : pynum) : option pynum :=
  match a, b with
  | PyInt x, PyInt y => Some (PyInt (x - y))
  | _, _ => x ← as_float a; y ← as_float b; Some (PyFloat (SFsub prec emax x y))
  end.

Definition py_mul (a b : pynum) : option pynum :=
  match a, b with
  | PyInt x, PyInt y => Some (PyInt (x * y))
  | _, _ => x ← as_float a; y ← as_float b; Some (PyFloat (SFmul prec emax x y))
  end.

(** [int / int]: the correctly rounded quotient; [None] is
    [ZeroDivisionError] or [OverflowError]. *)
Definition int_true_divide (a b : Z) : option spec_float :=
  if b =? 0 then None
  else
    let '(q, e, l) := SFdiv_core_binary prec emax (Z.abs a) 0 (Z.abs b) 0 in
    let f := binary_round_aux prec emax (xorb (a <? 0) (b <? 0)) q e l in
    if sf_is_inf f then None else Some f.

Definition py_truediv (a b : pynum) : option pynum :=
  match a, b with
  | PyInt x, PyInt y => PyFloat <$> int_true_divide x y
  | _, _ =>
    x ← as_float a; y ← as_float b;
    if sf_is_zero y then None else Some (PyFloat (SFdiv prec emax x y))
  end.

(** Comparison of an int with a float is exact. *)
Definition cmp_int_float (z : Z) (f : spec_float) : option comparison :=
  match f with
  | S754_nan => None
  | S754_infinity s => Some (if s then Gt else Lt)
  | S754_zero _ => Some (z ?= 0)
  | S754_finite s m e =>
    let v := if s then Zneg m else Zpos m in
    Some (if 0 <=? e then z ?= v * 2 ^ e else z * 2 ^ (- e) ?= v)
  end.

Definition py_lt (a b : pynum) : bool :=
  match a, b with
  | PyInt x, PyInt y => x <? y
  | PyFloat x, PyFloat y => SFltb x y
  | PyInt x, PyFloat y =>
    match cmp_int_float x y with Some Lt => true | _ => false end
  | PyFloat x, PyInt y =>
    match cmp_int_float y x with Some Gt => true | _ => false end
  end.

Definition py_gt (a b : pynum) : bool := py_lt b a.

(** [min(a, b)] and [max(a, b)]: the first argument unless the second
    is strictly smaller (larger). *)
Definition py_min (a b : pynum) : pynum := if py_lt b a then b else a.
Definition py_max (a b : pynum) : pynum := if py_gt b a then b else a.

(** [int(x)]: truncation towards zero; [None] is [ValueError] (NaN) or
    [OverflowError] (infinity). *)
Definition float_trunc (f : spec_float) : option Z :=
  match f with
  | S754_zero _ => Some 0
  | S754_finite s m e =>
    let a := if 0 <=? e then Zpos m * 2 ^ e else Zpos m / 2 ^ (- e) in
    Some (if s then - a else a)
  | _ => None
  end.

Definition py_int_of (a : pynum) : option Z :=
  match a with
  | PyInt z => Some z
  | PyFloat f => float_trunc f
  end.

Definition ONE : spec_float := S754_finite false 4503599627370496 (-52).

(** [x % 1] for a float [x] ([float_rem] with divisor [1.0]): the C
    [fmod], moved into the range of the divisor's sign; a zero
    remainder is [+0.0]. *)
Definition fmod_one (x : spec_float) : spec_float :=
  match x with
  | S754_finite s m e =>
    if 0 <=? e then S754_zero s
    else
      let r := Zpos m mod 2 ^ (- e) in
      binary_normalize prec emax (if s then - r else r) e s
  | S754_zero s => x
  | _ => S754_nan
  end.

Definition float_rem_one (x : spec_float) : spec_float :=
  let md := fmod_one x in
  if sf_is_zero md then S754_zero false
  else if SFltb md (S754_zero false) then SFadd prec emax md ONE
  else md.

(** A float literal [num/den] of the source text: the float nearest
    to the decimal fraction. *)
Definition float_lit (num den : Z) : spec_float :=
  match int_true_divide num den with
  | Some f => f
  | None => S754_nan
  end.

(** A float that is zero, or finite with at most 53 bits and an
    exponent of at most [E]. *)
Definition small (E : Z) (f : spec_float) : Prop :=
  match f with
  | S754_zero _ => True
  | S754_finite _ m e => Zpos (digits2_pos m) ≤ 53 ∧ e ≤ E
  | _ => False
  end.

End PyNum.

(* ================================================================= *)
(** ** The schema and the rows *)

Local Open Scope string_scope.
Local Open Scope list_scope.

Definition FIELDS : list string :=
  [ "log_index"; "engine_rpm"; "vehicle_speed"; "gear"; "torque";
    "oil_coolant_temperature"; "EGT_bank1"; "EGT_bank2";
    "intake_air_temperature"; "oil_press"; "fuel_press"; "MAP_value";
    "exhaust_press_bank1"; "exhaust_press_bank2"; "U12V"; "U5V";
    "faultword1" ].

Definition N_FIELDS : nat := length FIELDS.

(** [dict(zip(FIELDS, values))]: [zip] stops at the shorter list; a key
    given twice would keep its last value (the keys of [FIELDS] are
    distinct). *)
Definition dict_zip (keys : list string) (values : list Z) : gmap string Z :=
  fold_left (fun d kv => <[kv.1 := kv.2]> d) (zip keys values) ∅.

(* ================================================================= *)
(** ** One line of the serial stream ([SerialReader.run], loop body) *)

Inductive line_result :=
| Skipped
    (** [if not line: continue], [if not text: continue]: nothing is
        printed *)
| WrongFieldCount (actual : nat) (text : PyText.text)
    (** the [[warn] Skipping line with ... fields] message, [continue] *)
| NonInteger
    (** [except ValueError: continue]: nothing is printed *)
| Accepted (row : gmap string Z).

(** [[p for p in text.split(";") if p != ""]] *)
Definition parts_of (text : PyText.text) : list PyText.text :=
  List.filter (fun p => negb (PyText.is_nil p)) (PyText.split PyText.SEMI text).

(** From [if line.endswith(b"\r")] to [text = ....rstrip("\n")]. *)
Definition text_of_line (line : list byte) : PyText.text :=
  let line := if PyText.endswith_cr line then removelast line else line in
  PyText.rstrip PyText.LF (PyText.decode line).

(** [list(map(int, parts))]; [None] is the [ValueError] of the first
    token that [int] rejects. *)
Definition ints_of (parts : list PyText.text) : option (list Z) :=
  mapM PyText.py_int parts.

(** From [parts = ...] to [row = dict(zip(FIELDS, values))], after the
    test [if not text]. *)
Definition parse_text (text : PyText.text) : line_result :=
  if PyText.is_nil text then Skipped
  else
    let parts := parts_of text in
    if negb (length parts =? N_FIELDS)%nat
    then WrongFieldCount (length parts) text
    else match ints_of parts with
         | None => NonInteger
         | Some values => Accepted (dict_zip FIELDS values)
         end.

Definition parse_line (line : list byte) : line_result :=
  if PyText.is_nil line then Skipped
  else parse_text (text_of_line line).

(* ================================================================= *)
(** ** The synthetic source ([SerialReader._run_demo]) *)

Module Demo.

Import PyNum.
Local Open Scope Z_scope.

(** The locals that live across iterations.  ([iat], [egt1], ... are
    assigned in every iteration before they are read.) *)
Record locals := {
  i : Z;
  rpm : pynum;
  speed : pynum;
  gear : pynum;
  torque : pynum;
  oil_coolant_temperature : pynum;
  last_shift : spec_float;
}.

(** State before the loop; [t0] is the value of [time.time()] taken
    for [last_shift]. *)
Definition init (t0 : spec_float) : locals :=
  {| i := 0; rpm := PyInt 800; speed := PyInt 0; gear := PyInt 1;
     torque := PyInt 50; oil_coolant_temperature := PyInt 70;
     last_shift := t0 |}.

(** The three values [time.time()] returns during one iteration. *)
Record clock := {
  now : spec_float;     (** [now = time.time()] *)
  t_u12 : spec_float;   (** in the expression of [u12] *)
  t_u5 : spec_float;    (** in the expression of [u5] *)
}.

Definition clock_finite (c : clock) : bool :=
  sf_finite (now c) && sf_finite (t_u12 c) && sf_finite (t_u5 c).

Definition F0_5 : spec_float := float_lit 5 10.
Definition F0_2 : spec_float := float_lit 2 10.
Definition F0_02 : spec_float := float_lit 2 100.
Definition F1_5 : spec_float := float_lit 15 10.

(** [max(lo, min(hi, x))] *)
Definition clamp (lo hi : Z) (x : pynum) : pynum :=
  py_max (PyInt lo) (py_min (PyInt hi) x).

(** [rpm = max(700, min(6500, rpm + (50 if speed < 80 else -30)))] *)
Definition next_rpm (s : locals) : option pynum :=
  clamp 700 6500
    <$> py_add (rpm s) (if py_lt (speed s) (PyInt 80) then PyInt 50 else PyInt (-30)).

(** [speed = max(0, min(220, speed + (0.5 if rpm > 1200 else -0.2)))],
    with the new [rpm] *)
Definition next_speed (s : locals) (rpm' : pynum) : option pynum :=
  clamp 0 220
    <$> py_add (speed s)
          (if py_gt rpm' (PyInt 1200) then PyFloat F0_5
           else PyFloat (SFopp F0_2)).

(** [if now - last_shift > 5 and speed > 20: gear = min(8, gear + 1);
    last_shift = now]: the new [gear] and [last_shift] *)
Definition next_gear (s : locals) (now : spec_float) (speed' : pynum)
    : option (pynum * spec_float) :=
  elapsed ← py_sub (PyFloat now) (PyFloat (last_shift s));
  if py_gt elapsed (PyInt 5) && py_gt speed' (PyInt 20)
  then g ← py_add (gear s) (PyInt 1); Some (py_min (PyInt 8) g, now)
  else Some (gear s, last_shift s).

(** [torque = max(0, min(450, torque + (5 if rpm < 3000 else -7)))] *)
Definition next_torque (s : locals) (rpm' : pynum) : option pynum :=
  clamp 0 450
    <$> py_add (torque s) (if py_lt rpm' (PyInt 3000) then PyInt 5 else PyInt (-7)).

(** [oil_coolant_temperature = min(110, oil_coolant_temperature + 0.02)] *)
Definition next_temp (s : locals) : option pynum :=
  py_min (PyInt 110) <$> py_add (oil_coolant_temperature s) (PyFloat F0_02).

(** The quantities computed from [rpm] alone. *)
Record engine := {
  iat : pynum;
  egt1 : pynum;
  egt2 : pynum;
  oil_p : pynum;
  fuel_p : Z;
  map_val : Z;
  ep1 : Z;
  ep2 : Z;
}.

(** [base + int((rpm / 6500) * k)] *)
Definition scaled (base k : Z) (rpm : pynum) : option Z :=
  q ← py_truediv rpm (PyInt 6500);
  p ← py_mul q (PyInt k);
  n ← py_int_of p;
  Some (base + n).

(** From [iat = 20 + (rpm / 10000) * 30] to [ep2 = ep1 - 5] *)
Definition engine_channels (rpm' : pynum) : option engine :=
  iat ← (q ← py_truediv rpm' (PyInt 10000);
         p ← py_mul q (PyInt 30);
         py_add (PyInt 20) p);
  egt1 ← (q ← py_truediv rpm' (PyInt 6500);
          p ← py_mul q (PyInt 700);
          py_add (PyInt 300) p);
  egt2 ← py_sub egt1 (PyInt 10);
  oil_p ← (q ← py_truediv rpm' (PyInt 6500);
           p ← py_mul q (PyInt 4);
           py_add (PyFloat F1_5) p);
  fuel_p ← scaled 2500 1500 rpm';
  map_val ← scaled 1000 1500 rpm';
  ep1 ← scaled 80 120 rpm';
  Some {| iat := iat; egt1 := egt1; egt2 := egt2; oil_p := oil_p;
          fuel_p := fuel_p; map_val := map_val; ep1 := ep1; ep2 := ep1 - 5 |}.

(** [base + int(k * (0.5 - (time.time() % 1)))] *)
Definition wiggle (base k : Z) (t : spec_float) : option Z :=
  d ← py_sub (PyFloat F0_5) (PyFloat (float_rem_one t));
  p ← py_mul (PyInt k) d;
  n ← py_int_of p;
  Some (base + n).

(** [int(egt1)], [int(egt2)], [int(iat)], [int(oil_p * 100)] *)
Definition engine_ints (e : engine) : option (Z * Z * Z * Z) :=
  v_egt1 ← py_int_of (egt1 e);
  v_egt2 ← py_int_of (egt2 e);
  v_iat ← py_int_of (iat e);
  v_oil ← (p ← py_mul (oil_p e) (PyInt 100); py_int_of p);
  Some (v_egt1, v_egt2, v_iat, v_oil).

(** The list given to [zip(FIELDS, ...)]: [i], [int(rpm)], ...,
    [int(oil_p * 100)], ..., [int(fault)] with [fault = 0]. *)
Definition row_values (i' : Z) (rpm' speed' gear' torque' temp' : pynum)
    (e : engine) (u12 u5 : Z) : option (list Z) :=
  v_rpm ← py_int_of rpm';
  v_speed ← py_int_of speed';
  v_gear ← py_int_of gear';
  v_torque ← py_int_of torque';
  v_temp ← py_int_of temp';
  ei ← engine_ints e;
  Some [ i'; v_rpm; v_speed; v_gear; v_torque; v_temp; ei.1.1.1; ei.1.1.2;
         ei.1.2; ei.2; fuel_p e; map_val e; ep1 e; ep2 e; u12; u5; 0 ].

(** One iteration of the [while] loop: the new locals and the 17
    values of the row, or [None] when an exception is raised. *)
Definition iter (s : locals) (c : clock) : option (locals * list Z) :=
  let i' := i s + 1 in
  rpm' ← next_rpm s;
  speed' ← next_speed s rpm';
  gl ← next_gear s (now c) speed';
  torque' ← next_torque s rpm';
  temp' ← next_temp s;
  e ← engine_channels rpm';
  u12 ← wiggle 13800 100 (t_u12 c);
  u5 ← wiggle 5020 10 (t_u5 c);
  values ← row_values i' rpm' speed' gl.1 torque' temp' e u12 u5;
  Some ({| i := i'; rpm := rpm'; speed := speed'; gear := gl.1;
           torque := torque'; oil_coolant_temperature := temp';
           last_shift := gl.2 |},
        values).

(** The loop run for one iteration per element of [clocks]: the final
    locals and the rows in the order of emission. *)
Fixpoint run (s : locals) (clocks : list clock)
    : option (locals * list (list Z)) :=
  match clocks with
  | [] => Some (s, [])
  | c :: clocks' =>
    sr ← iter s c;
    rest ← run sr.1 clocks';
    Some (rest.1, sr.2 :: rest.2)
  end.

(** *** Quantities of the proofs *)

(** The temperature does not depend on the clock: its successive
    values. *)
Definition temp_step (v : pynum) : option pynum :=
  py_min (PyInt 110) <$> py_add v (PyFloat F0_02).

Fixpoint temp_traj (n : nat) (v : pynum) : list pynum :=
  v :: match n with
       | O => []
       | S n' => match temp_step v with
                 | Some v' => temp_traj n' v'
                 | None => []
                 end
       end.

(** The value [v] converts to an [int] and has a successor. *)
Definition temp_point_ok (v : pynum) : bool :=
  match py_int_of v, temp_step v with
  | Some _, Some _ => true
  | _, _ => false
  end.

(** Every channel computed from [rpm = r] exists and converts. *)
Definition engine_ok (r : Z) : bool :=
  match engine_channels (PyInt r) with
  | Some e => match engine_ints e with Some _ => true | None => false end
  | None => false
  end.

(** The last value of a trajectory. *)
Fixpoint traj_last (n : nat) (v : pynum) : pynum :=
  match n with
  | O => v
  | S n' => match temp_step v with
            | Some v' => traj_last n' v'
            | None => v
            end
  end.

(** The locals at the top of the loop. *)
Definition speed_ok (v : pynum) : Prop :=
  match v with
  | PyInt z => z = 0 ∨ z = 220
  | PyFloat f => py_lt (PyInt 0) v = true ∧ py_lt v (PyInt 220) = true
  end.

Definition TEMP_STEPS : nat := 2100.

Definition locals_ok (s : locals) : Prop :=
  (∃ r, rpm s = PyInt r)
  ∧ speed_ok (speed s)
  ∧ (∃ g, gear s = PyInt g)
  ∧ (∃ q, torque s = PyInt q)
  ∧ In (oil_coolant_temperature s) (temp_traj TEMP_STEPS (PyInt 70)).

End Demo.

(* ================================================================= *)
(** ** [collections.deque(maxlen=n)] *)

Record deque (A : Type) := Deque {
  dq_maxlen : nat;
  dq_items : list A;
}.
Arguments Deque {A} _ _.
Arguments dq_maxlen {A} _.
Arguments dq_items {A} _.

(** [deque(maxlen=n)]; [None] is the [ValueError] for a negative [n]. *)
Definition deque_new {A} (maxlen : Z) : option (deque A) :=
  if (maxlen <? 0)%Z then None else Some (Deque (Z.to_nat maxlen) []).

(** [d.append(x)]: the item is added on the right, and when the bound is
    exceeded one item is removed on the left. *)
Definition deque_append {A} (d : deque A) (x : A) : deque A :=
  let items := dq_items d ++ [x] in
  Deque (dq_maxlen d)
        (if (dq_maxlen d <? length items)%nat then tail items else items).

(** The bound of a deque and the fact that it is respected. *)
Definition deque_ok (n : nat) (d : deque Z) : Prop :=
  dq_maxlen d = n ∧ (length (dq_items d) ≤ n)%nat.

(** [--max-points], default value. *)
Definition DEFAULT_MAX_POINTS : Z := 1200.

(* ================================================================= *)
(** ** [faultword_to_flags] *)

Definition mapping : list (Z * string) :=
  [ (0, "SENSOR_ERR"); (1, "OVERBOOST"); (2, "LOW_OIL"); (3, "HIGH_EGT");
    (4, "LOW_FUEL_PRESS"); (5, "LOW_U12V"); (6, "LOW_U5V");
    (7, "MAP_IMPLAUS") ]%Z.

(** [for bit, name in mapping.items(): if fw & (1 << bit): flags.append(name)] *)
Definition faultword_to_flags (fw : Z) : list string :=
  fold_left
    (fun flags bn =>
       if (Z.land fw (Z.shiftl 1 bn.1) =? 0)%Z then flags else flags ++ [bn.2])
    mapping [].

(** The bit of [fw] at the position of an entry of [mapping]. *)
Definition bit_set (fw : Z) (bn : Z * string) : bool := Z.testbit fw bn.1.

(* ================================================================= *)
(** ** The running program: reader thread and timer callback *)

(** One data row of the CSV file: the time stamp taken by [update] (here
    the clock reading in milliseconds, before it is formatted) and the
    cells in the order of [FIELDS]; [csv.DictWriter] leaves the cell of
    a missing key empty. *)
Record csv_row := CsvRow {
  timestamp : Z;
  cells : list (option Z);
}.

Definition csv_header : list string := "timestamp_iso" :: FIELDS.

Inductive console_msg :=
| WarnSkipping (fields : nat) (text : PyText.text)
| ErrorSerial
| ErrorUnexpected.

Record world := World {
  (** the [SerialReader] object *)
  demo : bool;
  stop_flag : bool;
  latest_row : option (gmap string Z);
  ser_open : bool;
  (** its thread: still inside the loop of [run] / [_run_demo], and the
      locals of [_run_demo] *)
  alive : bool;
  demo_locals : Demo.locals;
  (** what the thread printed *)
  console : list console_msg;
  (** [main]: the data rows written so far ([None] with [--no-log]), the
      deques [x], [rpm], [speed], ... in the order of [FIELDS], and the
      fault overlay (the fault word and its flags, nothing for 0) *)
  writer : option (list csv_row);
  history : list (deque Z);
  fault_text : option (Z * list string);
}.

Definition set_latest (row : gmap string Z) (w : world) : world :=
  World (demo w) (stop_flag w) (Some row) (ser_open w) (alive w)
        (demo_locals w) (console w) (writer w) (history w) (fault_text w).

Definition set_alive (b : bool) (w : world) : world :=
  World (demo w) (stop_flag w) (latest_row w) (ser_open w) b
        (demo_locals w) (console w) (writer w) (history w) (fault_text w).

Definition print (m : console_msg) (w : world) : world :=
  World (demo w) (stop_flag w) (latest_row w) (ser_open w) (alive w)
        (demo_locals w) (console w ++ [m]) (writer w) (history w) (fault_text w).

Definition set_demo_locals (s : Demo.locals) (w : world) : world :=
  World (demo w) (stop_flag w) (latest_row w) (ser_open w) (alive w)
        s (console w) (writer w) (history w) (fault_text w).

(** [with self.lock: self.latest_row = row] *)
Definition store_latest (row : gmap string Z) (w : world) : world :=
  set_latest row w.

(** [SerialReader.get_latest]: a copy of the row, the object unchanged. *)
Definition get_latest (w : world) : world * option (gmap string Z) :=
  (w, latest_row w).

(** [SerialReader.stop] *)
Definition stop (w : world) : world :=
  World (demo w) true (latest_row w) false (alive w)
        (demo_locals w) (console w) (writer w) (history w) (fault_text w).

(** The loop test [while not self.stop_flag.is_set()], then the body. *)
Definition loop_iteration (body : world → world) (w : world) : world :=
  if negb (alive w) then w
  else if stop_flag w then set_alive false w
  else body w.

(** Body of the loop of [SerialReader.run] when [read_until] returned
    [line] (empty after a timeout). *)
Definition run_body (line : list byte) (w : world) : world :=
  match parse_line line with
  | Skipped => w
  | WrongFieldCount n text => print (WarnSkipping n text) w
  | NonInteger => w
  | Accepted row => store_latest row w
  end.

(** Body of the loop when [read_until] raised: [SerialException], or
    anything else that is not a [ValueError]. *)
Definition run_read_failed (serial_exception : bool) (w : world) : world :=
  set_alive false
    (print (if serial_exception then ErrorSerial else ErrorUnexpected) w).

(** Body of the loop of [_run_demo]; an exception ends the thread. *)
Definition run_demo_body (c : Demo.clock) (w : world) : world :=
  match Demo.iter (demo_locals w) c with
  | Some (s, values) =>
    store_latest (dict_zip FIELDS values) (set_demo_locals s w)
  | None => set_alive false w
  end.

(** [x.append(row["log_index"])], [rpm.append(row["engine_rpm"])], ...:
    the deque at position [i] receives the value of [FIELDS[i]].  (A
    missing key would raise [KeyError]; every row of the cache has the
    17 keys, see [row_complete] below.) *)
Definition append_history (row : gmap string Z) (hist : list (deque Z))
    : list (deque Z) :=
  zip_with (fun k d => deque_append d (row !!! k)) FIELDS hist.

(** [writer.writerow(row_out)] *)
Definition csv_cells (row : gmap string Z) : list (option Z) :=
  map (fun k => row !! k) FIELDS.

(** The timer callback [update]; [now] is the clock when the CSV row is
    built. *)
Definition update (now : Z) (w : world) : world :=
  match get_latest w with
  | (w, None) => w
  | (w, Some row) =>
    let writer' :=
      match writer w with
      | Some rows => Some (rows ++ [CsvRow now (csv_cells row)])
      | None => None
      end in
    let history' := append_history row (history w) in
    let fw := default 0%Z (d ← last history'; last (dq_items d)) in
    let fault_text' :=
      if (fw =? 0)%Z then None else Some (fw, faultword_to_flags fw) in
    World (demo w) (stop_flag w) (latest_row w) (ser_open w) (alive w)
          (demo_locals w) (console w) writer' history' fault_text'
  end.

Inductive event :=
| ReadLine (line : list byte)   (** [run]: [read_until] returned *)
| ReadFailed (serial_exception : bool)   (** [run]: [read_until] raised *)
| DemoIter (c : Demo.clock)     (** [_run_demo]: one iteration *)
| Update (now : Z)              (** the timer fired *)
| Stop.                         (** [reader.stop()] *)

Definition step (w : world) (e : event) : world :=
  match e with
  | ReadLine line =>
    if demo w then w else loop_iteration (run_body line) w
  | ReadFailed se =>
    if demo w then w else loop_iteration (run_read_failed se) w
  | DemoIter c =>
    if demo w then loop_iteration (run_demo_body c) w else w
  | Update now => update now w
  | Stop => stop w
  end.

Definition run (w : world) (evs : list event) : world := fold_left step evs w.

(** [main] up to the start of the animation: the CSV writer (unless
    [--no-log]), the reader and its thread, the 17 deques.  [None] is
    the [ValueError] of [deque] for a negative [--max-points]; [t0] is
    the clock read by [_run_demo] before its loop. *)
Definition main_init (demo_mode no_log : bool) (max_points : Z)
    (t0 : spec_float) : option world :=
  d ← deque_new max_points;
  Some (World demo_mode false None (negb demo_mode) true (Demo.init t0) []
              (if no_log then None else Some [])
              (replicate N_FIELDS d) None).

(** Successive calls of [get_latest]: the results, oldest first. *)
Fixpoint get_latest_n (n : nat) (w : world) : world * list (option (gmap string Z)) :=
  match n with
  | O => (w, [])
  | S n' =>
    let '(w1, r) := get_latest w in
    let '(w2, rs) := get_latest_n n' w1 in
    (w2, r :: rs)
  end.

(* ================================================================= *)
(** ** The wire format as the specification words it *)





(** An event that stores no row: a rejected or empty line, a failed
    read, a tick of the timer, [stop]. *)
Definition quiet (e : event) : bool :=
  match e with
  | ReadLine line =>
    match parse_line line with Accepted _ => false | _ => true end
  | DemoIter _ => false
  | _ => true
  end.

(* ================================================================= *)
(** ** Data of the end-to-end scenario *)

Definition bytes_of (s : string) : list byte := list_byte_of_string s.

Definition LINE1 : list byte :=
  bytes_of "1;800;0;1;50;70;350;340;20;200;3000;1000;100;95;13800;5020;0"
  ++ [x0a].

(** 16 fields instead of 17 *)
Definition LINE_SHORT : list byte :=
  bytes_of "1;800;0;1;50;70;350;340;20;200;3000;1000;100;95;13800;5020"
  ++ [x0a].

Definition LINE2 : list byte :=
  bytes_of "2;850;1;1;55;70;360;350;20;205;3050;1010;101;96;13790;5015;0"
  ++ [x0a].

(** 17 fields, the last one not a number *)
Definition LINE_ALPHA : list byte :=
  bytes_of "1;800;0;1;50;70;350;340;20;200;3000;1000;100;95;13800;5020;x"
  ++ [x0a].

Definition ROW1 : gmap string Z :=
  dict_zip FIELDS
    [1; 800; 0; 1; 50; 70; 350; 340; 20; 200; 3000; 1000; 100; 95; 13800; 5020; 0]%Z.

Definition ROW2 : gmap string Z :=
  dict_zip FIELDS
    [2; 850; 1; 1; 55; 70; 360; 350; 20; 205; 3050; 1010; 101; 96; 13790; 5015; 0]%Z.

(** The program started on a serial port, with logging, with the
    default [--max-points]. *)
Definition W_SERIAL : world :=
  World false false None true true (Demo.init (S754_zero false)) []
        (Some []) (replicate N_FIELDS (Deque 1200 [])) None.

(** The number of data rows in the CSV file. *)
Definition data_rows (w : world) : option nat := length <$> writer w.

(** The lines of a schedule that the reader accepts. *)
Definition accepted_lines (evs : list event) : nat :=
  length (List.filter (fun e => negb (quiet e)) evs).
(** The loop of [run] is running: serial mode, thread inside the loop,
    [stop] not called. *)
Definition reading (w : world) : Prop :=
  demo w = false ∧ alive w = true ∧ stop_flag w = false.

(** The schedule of the end-to-end scenario in which the timer fires
    after each accepted line, at the times [t1] and [t2]. *)
Definition E2E_PACED (t1 t2 : Z) : list event :=
  [ReadLine LINE1; Update t1; ReadLine LINE_SHORT; ReadLine LINE2; Update t2].

(** The same lines when the timer fires once, after the three lines. *)
Definition E2E_BURST (t : Z) : list event :=
  [ReadLine LINE1; ReadLine LINE_SHORT; ReadLine LINE2; Update t].

(** The first line alone, seen by two ticks of the timer. *)
Definition E2E_SLOW (t1 t2 : Z) : list event :=
  [ReadLine LINE1; Update t1; Update t2].

(** The first line of the scenario without its terminator, and with a
    closing delimiter as the firmware sends it. *)
Definition PAYLOAD1 : list byte :=
  bytes_of "1;800;0;1;50;70;350;340;20;200;3000;1000;100;95;13800;5020;0".

Definition PAYLOAD1_SEMI : list byte :=
  bytes_of "1;800;0;1;50;70;350;340;20;200;3000;1000;100;95;13800;5020;0;".

(** Three iterations of the synthetic source, 50 ms apart. *)
Definition DEMO_T0 : spec_float := PyNum.float_lit 1000 1.

Definition DEMO_CLOCKS : list Demo.clock :=
  [ Demo.Build_clock (PyNum.float_lit 100005 100) (PyNum.float_lit 100006 100)
      (PyNum.float_lit 100007 100);
    Demo.Build_clock (PyNum.float_lit 100010 100) (PyNum.float_lit 100011 100)
      (PyNum.float_lit 100012 100);
    Demo.Build_clock (PyNum.float_lit 100015 100) (PyNum.float_lit 100016 100)
      (PyNum.float_lit 100099 100) ].

(** The program started with [--demo --no-log]. *)
Definition W_DEMO : world :=
  World true false None false true (Demo.init DEMO_T0) [] None
        (replicate N_FIELDS (Deque 1200 [])) None.

(* ================================================================= *)
(** ** [SerialReader.__init__] *)

(** What the constructor finds on the machine: whether [serial] was
    imported, the devices listed by [list_ports.comports()], and
    whether [serial.Serial(port, baud, timeout=1)] returns (it raises
    otherwise). *)
Record host := Host {
  pyserial : bool;
  comports : list string;
  serial_opens : string → Z → bool;
}.

Inductive init_error :=
| PyserialNotInstalled   (** [RuntimeError("pyserial not installed...")] *)
| NoSerialPorts          (** [RuntimeError("No serial ports found...")] *)
| MultipleSerialPorts    (** [RuntimeError("Multiple serial ports found...")] *)
| SerialOpenError.       (** the exception of [serial.Serial(...)] *)

(** The attributes [demo], [port] and [ser] (the port of the open
    [Serial] object) of the new reader, and the ports announced by
    [[info] Auto-selected port]. *)
Record reader := Reader {
  r_demo : bool;
  r_port : option string;
  r_ser : option string;
  r_info : list string;
}.

(** [self.port] after the block [if self.port is None], with what the
    block printed. *)
Definition select_port (h : host) (port : option string)
    : init_error + (string * list string) :=
  match port with
  | Some p => inr (p, [])
  | None =>
    match comports h with
    | [p] => inr (p, [p])
    | [] => inl NoSerialPorts
    | _ => inl MultipleSerialPorts
    end
  end.

(** The constructor.  (The buffer sizes set under Windows are not part
    of the model; a failure there is swallowed by the source.) *)
Definition reader_init (h : host) (port : option string) (baud : Z)
    (demo : bool) : init_error + reader :=
  if demo then inr (Reader true port None [])
  else if negb (pyserial h) then inl PyserialNotInstalled
  else
    match select_port h port with
    | inl e => inl e
    | inr (p, info) =>
      if serial_opens h p baud then inr (Reader false (Some p) (Some p) info)
      else inl SerialOpenError
    end.

(* ================================================================= *)
(** ** Quantities of the properties *)

(** A row that binds every name of the schema. *)
Definition complete (row : gmap string Z) : Prop :=
  ∀ k, k ∈ FIELDS → is_Some (row !! k).

(** The samples of a schedule: for every tick of the timer that finds a
    row in the cache, the clock of the tick and that row, oldest
    first. *)
Fixpoint samples (w : world) (evs : list event) : list (Z * gmap string Z) :=
  match evs with
  | [] => []
  | e :: evs' =>
    match e, latest_row w with
    | Update now, Some row => [(now, row)]
    | _, _ => []
    end ++ samples (step w e) evs'
  end.

(** The data row that [update] writes for a sample. *)
Definition csv_row_of (s : Z * gmap string Z) : csv_row :=
  CsvRow s.1 (csv_cells s.2).

(** The reader thread has left its loop, or will leave it at the next
    test of [stop_flag]. *)
Definition halted (w : world) : Prop :=
  alive w = false ∨ stop_flag w = true.

(** [lo <= z <= hi] *)
Definition between (lo hi z : Z) : bool := (lo <=? z)%Z && (z <=? hi)%Z.

(** The ranges in which [_run_demo] keeps the channels of a row (the
    two voltages, which follow the clock, are left free), and the
    relations between the channels of the two banks. *)
Definition demo_row_ok (values : list Z) : bool :=
  match values with
  | [ i; rpm; speed; gear; torque; temp; egt1; egt2; iat; oil_p; fuel_p;
      map_val; ep1; ep2; u12; u5; fault ] =>
    (1 <=? i)%Z
    && between 700 6500 rpm && between 0 220 speed && between 1 8 gear
    && between 0 450 torque && between 70 110 temp
    && between 375 1000 egt1 && (egt2 =? egt1 - 10)%Z
    && between 22 39 iat && between 193 550 oil_p
    && between 2661 4000 fuel_p && between 1161 2500 map_val
    && between 92 200 ep1 && (ep2 =? ep1 - 5)%Z
    && (fault =? 0)%Z
  | _ => false
  end.

(** The same for the channels computed from [rpm = r]. *)
Definition engine_in_range (r : Z) : bool :=
  match Demo.engine_channels (PyNum.PyInt r) with
  | Some e =>
    match Demo.engine_ints e with
    | Some (egt1, egt2, iat, oil_p) =>
      between 375 1000 egt1 && (egt2 =? egt1 - 10)%Z
      && between 22 39 iat && between 193 550 oil_p
      && between 2661 4000 (Demo.fuel_p e)
      && between 1161 2500 (Demo.map_val e)
      && between 92 200 (Demo.ep1 e) && (Demo.ep2 e =? Demo.ep1 e - 5)%Z
    | None => false
    end
  | None => false
  end.

(** A temperature that converts to an [int] between 70 and 110. *)
Definition temp_in_range (v : PyNum.pynum) : bool :=
  match PyNum.py_int_of v with
  | Some z => between 70 110 z
  | None => false
  end.

(** The locals at the top of the loop of [_run_demo]. *)
Definition locals_in_range (s : Demo.locals) : Prop :=
  (0 ≤ Demo.i s)%Z
  ∧ (∃ r, Demo.rpm s = PyNum.PyInt r ∧ (700 ≤ r ≤ 6500)%Z)
  ∧ Demo.speed_ok (Demo.speed s)
  ∧ (∃ g, Demo.gear s = PyNum.PyInt g ∧ (1 ≤ g ≤ 8)%Z)
  ∧ (∃ q, Demo.torque s = PyNum.PyInt q ∧ (0 ≤ q ≤ 450)%Z)
  ∧ In (Demo.oil_coolant_temperature s)
       (Demo.temp_traj Demo.TEMP_STEPS (PyNum.PyInt 70)).

(** What holds of the program started with [--demo], at any time. *)
Definition demo_world_ok (w : world) : Prop :=
  demo w = true
  ∧ locals_in_range (demo_locals w)
  ∧ (∀ row, latest_row w = Some row →
       ∃ values, row = dict_zip FIELDS values ∧ demo_row_ok values = true)
  ∧ length (history w) = N_FIELDS
  ∧ fault_text w = None.




(* ================================================================= *)
(** * Properties *)

Local Close Scope string_scope.

(* ================================================================= *)
(** ** The fault decoder *)

Section Faultword.

Local Open Scope Z_scope.

Lemma land_bit_eqb (fw b : Z) :
  0 ≤ b → (Z.land fw (Z.shiftl 1 b) =? 0) = negb (Z.testbit fw b).
Proof.
  intros Hb. rewrite Z.shiftl_1_l.
  destruct (Z.testbit fw b) eqn:Hbit; simpl.
  - apply Z.eqb_neq. intros H0.
    assert (Hc : Z.testbit (Z.land fw (2 ^ b)) b = true).
    { rewrite Z.land_spec, Hbit, Z.pow2_bits_true; auto. }
    rewrite H0, Z.bits_0 in Hc. discriminate.
  - apply Z.eqb_eq. apply Z.bits_inj'. intros n Hn.
    rewrite Z.land_spec, Z.bits_0.
    destruct (Z.eq_dec n b) as [->|Hne].
    + rewrite Hbit. reflexivity.
    + rewrite Z.pow2_bits_false by auto. apply andb_false_r.
Qed.

Lemma flags_fold (fw : Z) (l : list (Z * string)) (acc : list string) :
  Forall (fun bn => 0 ≤ bn.1) l →
  fold_left
    (fun flags bn =>
       if Z.land fw (Z.shiftl 1 bn.1) =? 0 then flags else flags ++ [bn.2])
    l acc
  = acc ++ map snd (List.filter (bit_set fw) l).
Proof.
  revert acc. induction l as [|[b name] l IH]; intros acc Hl; simpl.
  - by rewrite app_nil_r.
  - inversion Hl as [|? ? Hb Hl']; subst. simpl in Hb.
    rewrite IH by done. rewrite land_bit_eqb by done.
    unfold bit_set at 2. simpl.
    destruct (Z.testbit fw b); simpl; [|done].
    by rewrite <- app_assoc.
Qed.

Lemma filter_none {B} (p : B → bool) (l : list B) :
  Forall (fun b => p b = false) l → List.filter p l = [].
Proof. induction 1 as [|b l Hb _ IH]; simpl; [done|]. by rewrite Hb. Qed.

Lemma mapping_bits : map fst mapping = [0; 1; 2; 3; 4; 5; 6; 7].
Proof. reflexivity. Qed.

Lemma mapping_nonneg : Forall (fun bn : Z * string => 0 ≤ bn.1) mapping.
Proof. unfold mapping. repeat constructor; simpl; lia. Qed.

End Faultword.

(** C10: [faultword_to_flags fw] is the list of the labels of the bits
    of [fw] that are set among the positions 0 to 7, in ascending order
    of the bit; a word with no bit set below position 8 gives the empty
    list.  (It holds for every integer, the negative ones included.) *)
Theorem faultword_to_flags_low_bits (fw : Z) :
  faultword_to_flags fw = map snd (List.filter (bit_set fw) mapping)
  ∧ map fst mapping = [0; 1; 2; 3; 4; 5; 6; 7]%Z
  ∧ ((∀ b : Z, (0 ≤ b < 8)%Z → Z.testbit fw b = false) →
     faultword_to_flags fw = []).
Proof.
  assert (Hflags : faultword_to_flags fw
                   = map snd (List.filter (bit_set fw) mapping)).
  { unfold faultword_to_flags. by rewrite flags_fold by apply mapping_nonneg. }
  split; [done|]. split; [apply mapping_bits|].
  intros Hhigh. rewrite Hflags.
  assert (Hnone : Forall (fun bn => bit_set fw bn = false) mapping).
  { unfold mapping, bit_set. repeat constructor; apply Hhigh; simpl; lia. }
  by rewrite (filter_none _ _ Hnone).
Qed.

Lemma faultword_to_flags_low_bits_witness :
  faultword_to_flags 256 = [] ∧ faultword_to_flags 133 = ["SENSOR_ERR"; "LOW_OIL"; "MAP_IMPLAUS"]%string.
Proof.
  split.
  - apply (proj2 (proj2 (faultword_to_flags_low_bits 256))).
    intros b Hb.
    assert (Hc : (b = 0 ∨ b = 1 ∨ b = 2 ∨ b = 3 ∨ b = 4 ∨ b = 5 ∨ b = 6 ∨ b = 7)%Z)
      by lia.
    decompose [or] Hc; subst; reflexivity.
  - rewrite (proj1 (faultword_to_flags_low_bits 133)). reflexivity.
Defined.

(* ================================================================= *)
(** ** The bounded deques *)

Section Deque.

Context {A : Type}.
Implicit Types (d : deque A) (x : A) (xs : list A).

Lemma deque_append_maxlen d x : dq_maxlen (deque_append d x) = dq_maxlen d.
Proof. reflexivity. Qed.

Lemma deque_append_items d x :
  length (dq_items d) ≤ dq_maxlen d →
  dq_items (deque_append d x)
  = drop (length (dq_items d ++ [x]) - dq_maxlen d) (dq_items d ++ [x]).
Proof.
  intros Hlen. unfold deque_append. simpl.
  rewrite length_app. simpl.
  destruct (Nat.ltb_spec (dq_maxlen d) (length (dq_items d) + 1)) as [Hlt|Hge].
  - replace (length (dq_items d) + 1 - dq_maxlen d) with 1 by lia.
    by destruct (dq_items d ++ [x]).
  - replace (length (dq_items d) + 1 - dq_maxlen d) with 0 by lia. done.
Qed.

Lemma deque_append_bounded d x :
  length (dq_items d) ≤ dq_maxlen d →
  length (dq_items (deque_append d x)) ≤ dq_maxlen d.
Proof.
  intros Hlen. rewrite deque_append_items by done.
  rewrite length_drop, length_app. simpl. lia.
Qed.

Lemma fold_append_maxlen xs d :
  dq_maxlen (fold_left deque_append xs d) = dq_maxlen d.
Proof. revert d. induction xs as [|x xs IH]; intros d; simpl; [done|]. by rewrite IH. Qed.

(** After any number of appends to an empty deque of bound [n], the
    deque holds the last [n] items, in the order of arrival. *)
Lemma fold_append_last (n : nat) xs :
  dq_items (fold_left deque_append xs (Deque n []))
  = drop (length xs - n) xs.
Proof.
  induction xs as [|x xs IH] using rev_ind; [done|].
  rewrite fold_left_app.
  assert (Hb : length (dq_items (fold_left deque_append xs (Deque n []))) ≤
               dq_maxlen (fold_left deque_append xs (Deque n []))).
  { rewrite IH, length_drop, fold_append_maxlen. simpl. lia. }
  cbn [fold_left].
  rewrite deque_append_items by done. rewrite fold_append_maxlen.
  cbn [dq_maxlen].
  rewrite IH, !length_app, length_drop. cbn [length].
  destruct (decide (length xs < n)) as [Hlt|Hge].
  - replace (length xs - (length xs - n) + 1 - n) with 0 by lia.
    replace (length xs + 1 - n) with 0 by lia.
    replace (length xs - n) with 0 by lia. done.
  - replace (length xs - (length xs - n) + 1 - n) with 1 by lia.
    replace (length xs + 1 - n) with ((length xs - n) + 1) by lia.
    rewrite <- drop_drop. f_equal.
    by rewrite drop_app_le by lia.
Qed.

End Deque.

(* ================================================================= *)
(** ** Frame properties of the events *)

Arguments parse_line : simpl never.
Arguments Demo.iter : simpl never.
Arguments append_history : simpl never.
Arguments csv_cells : simpl never.
Arguments dict_zip : simpl never.
Arguments faultword_to_flags : simpl never.

(** Unfolds one event down to the tests it makes. *)
Ltac step_cases w e :=
  destruct e as [?line|?se|?c|?now|];
  unfold step, loop_iteration, run_body, run_read_failed, run_demo_body,
    update, stop, store_latest, get_latest;
  [ destruct (demo w); [|destruct (alive w); [destruct (stop_flag w);
      [|destruct (parse_line line) as [|?n ?text| |?row] eqn:?Hparse]|]]
  | destruct (demo w); [|destruct (alive w); [destruct (stop_flag w)|]]
  | destruct (demo w); [destruct (alive w); [destruct (stop_flag w);
      [|destruct (Demo.iter (demo_locals w) c) as [[?s ?values]|] eqn:?Hiter]|]|]
  | destruct (latest_row w) as [?row|] eqn:?Hrow
  | ]; simpl.

Lemma append_history_ok (n : nat) (row : gmap string Z) (hist : list (deque Z)) :
  Forall (deque_ok n) hist → Forall (deque_ok n) (append_history row hist).
Proof.
  intros Hh. unfold append_history. generalize FIELDS.
  induction Hh as [|d ds [Hm Hl] _ IH]; intros ks.
  - destruct ks; constructor.
  - destruct ks as [|k ks]; [constructor|]. simpl. constructor; [|apply IH].
    split; [done|]. rewrite <- Hm. apply deque_append_bounded. lia.
Qed.

Lemma append_history_length (row : gmap string Z) (hist : list (deque Z)) :
  length hist = N_FIELDS → length (append_history row hist) = N_FIELDS.
Proof.
  intros Hl. unfold append_history. rewrite length_zip_with.
  fold N_FIELDS. lia.
Qed.

Lemma step_history_ok (n : nat) (w : world) (e : event) :
  Forall (deque_ok n) (history w) → Forall (deque_ok n) (history (step w e)).
Proof. intros Hh. step_cases w e; auto using append_history_ok. Qed.

Lemma step_history_length (w : world) (e : event) :
  length (history w) = N_FIELDS → length (history (step w e)) = N_FIELDS.
Proof. intros Hh. step_cases w e; auto using append_history_length. Qed.

(** A property kept by every event holds along every run. *)
Lemma run_invariant (P : world → Prop) :
  (∀ w e, P w → P (step w e)) → ∀ evs w, P w → P (run w evs).
Proof.
  intros Hstep evs. induction evs as [|e evs IH]; intros w Hw; [done|].
  apply IH, Hstep, Hw.
Qed.

(** C8: a history buffer has a fixed capacity, taken from
    [--max-points] (1200 unless given); its length never exceeds it,
    for a deque on its own and for the 17 deques of a running program;
    after [xs] has been appended to an empty buffer of capacity [n] the
    buffer holds the last [n] items of [xs] in the order of arrival, so
    that after [n + 1] appends it holds the items 2 to [n + 1] and its
    length is exactly [n]. *)
Theorem ring_buffer_eviction (n : nat) (xs : list Z)
    (demo_mode no_log : bool) (max_points : Z) (t0 : spec_float)
    (w0 : world) (evs : list event) :
  main_init demo_mode no_log max_points t0 = Some w0 →
  let d := fold_left deque_append xs (Deque n []) in
  dq_maxlen d = n
  ∧ length (dq_items d) ≤ n
  ∧ dq_items d = drop (length xs - n) xs
  ∧ (length xs = S n → dq_items d = tail xs ∧ length (dq_items d) = n)
  ∧ deque_new (A := Z) DEFAULT_MAX_POINTS = Some (Deque 1200 [])
  ∧ length (history (run w0 evs)) = 17
  ∧ Forall (deque_ok (Z.to_nat max_points)) (history (run w0 evs)).
Proof.
  intros Hinit d.
  assert (Hitems : dq_items d = drop (length xs - n) xs)
    by apply fold_append_last.
  split; [apply fold_append_maxlen|].
  split; [rewrite Hitems, length_drop; lia|].
  split; [done|].
  split.
  { intros Hlen. rewrite Hitems, Hlen.
    replace (S n - n) with 1 by lia.
    split; [by destruct xs|]. rewrite length_drop. lia. }
  split; [done|].
  unfold main_init, deque_new in Hinit.
  destruct (max_points <? 0)%Z; simpl in Hinit; [done|].
  injection Hinit as <-.
  split.
  - apply (run_invariant (fun w => length (history w) = N_FIELDS));
      [apply step_history_length|]. reflexivity.
  - apply run_invariant; [apply step_history_ok|]. cbn [history].
    repeat (constructor; [split; simpl; [done|lia]|]). constructor.
Qed.

Lemma ring_buffer_eviction_witness :
  dq_items (fold_left deque_append [10; 20; 30; 40]%Z (Deque 3 [])) = [20; 30; 40]%Z
  ∧ length (dq_items (fold_left deque_append [10; 20; 30; 40]%Z (Deque 3 []))) = 3.
Proof.
  refine (proj1 (proj2 (proj2 (proj2
    (ring_buffer_eviction 3 [10; 20; 30; 40]%Z true true 3 (S754_zero false)
       _ [] eq_refl)))) eq_refl).
Defined.

(* ================================================================= *)
(** ** The cache slot *)

Lemma step_latest_row (w : world) (e : event) :
  latest_row (step w e) = latest_row w
  ∨ ∃ row, latest_row (step w e) = Some row.
Proof. step_cases w e; eauto. Qed.

Lemma step_keeps_row (w : world) (e : event) :
  is_Some (latest_row w) → is_Some (latest_row (step w e)).
Proof.
  intros Hw. destruct (step_latest_row w e) as [->|[row ->]]; eauto.
Qed.

(** C9: once the cache slot holds a row it holds one for ever: whatever
    the reader, the timer and [stop] do afterwards, [get_latest] returns
    a row and never [None]. *)
Theorem cache_never_reverts (w : world) (evs : list event)
    (row : gmap string Z) :
  (get_latest w).2 = Some row →
  ∃ row', (get_latest (run w evs)).2 = Some row'
          ∧ latest_row (run w evs) ≠ None
          ∧ latest_row (stop (run w evs)) = latest_row (run w evs).
Proof.
  intros Hget. simpl in Hget.
  destruct (run_invariant (fun w => is_Some (latest_row w)) step_keeps_row
              evs w) as [row' Hrow']; [by eexists|].
  exists row'. simpl. rewrite Hrow'. done.
Qed.

Lemma step_quiet (w : world) (e : event) :
  quiet e = true → latest_row (step w e) = latest_row w.
Proof.
  intros Hq. step_cases w e; try done; simpl in Hq.
  all: match goal with H : parse_line _ = _ |- _ => rewrite H in Hq end.
  all: done.
Qed.

Lemma run_quiet (evs : list event) (w : world) :
  forallb quiet evs = true → latest_row (run w evs) = latest_row w.
Proof.
  revert w. induction evs as [|e evs IH]; intros w Hq; [done|].
  simpl in Hq. apply andb_prop in Hq as [He Hq]. simpl.
  rewrite IH by done. by apply step_quiet.
Qed.

Lemma get_latest_n_spec (n : nat) (w : world) :
  get_latest_n n w = (w, replicate n (latest_row w)).
Proof.
  induction n as [|n IH]; [done|]. simpl. by rewrite IH.
Qed.

(** C2: the cache is latest-wins and reading does not consume: after
    [A] and then [B] have been stored, and whatever happens next that
    stores no row, any number of calls of [get_latest] all return [B],
    and leave the reader as it is. *)
Theorem cache_latest_wins (w : world) (A B : gmap string Z)
    (evs : list event) (n : nat) :
  forallb quiet evs = true →
  let w' := run (store_latest B (store_latest A w)) evs in
  get_latest w' = (w', Some B)
  ∧ get_latest_n n w' = (w', replicate n (Some B)).
Proof.
  intros Hq w'.
  assert (Hrow : latest_row w' = Some B) by (unfold w'; by rewrite run_quiet).
  split.
  - unfold get_latest. by rewrite Hrow.
  - by rewrite get_latest_n_spec, Hrow.
Qed.

(* ================================================================= *)
(** ** Lines that are not accepted *)

Lemma W_SERIAL_init :
  main_init false false DEFAULT_MAX_POINTS (S754_zero false) = Some W_SERIAL.
Proof. reflexivity. Qed.

Lemma parse_line_accepted (line : list byte) (row : gmap string Z) :
  parse_line line = Accepted row →
  length (parts_of (text_of_line line)) = N_FIELDS
  ∧ ∃ values, ints_of (parts_of (text_of_line line)) = Some values
              ∧ row = dict_zip FIELDS values.
Proof.
  unfold parse_line, parse_text. destruct (PyText.is_nil line); [done|].
  destruct (PyText.is_nil (text_of_line line)); [done|].
  destruct (Nat.eqb_spec (length (parts_of (text_of_line line))) N_FIELDS)
    as [Heq|Hne]; simpl; [|done].
  destruct (ints_of _) as [values|]; [|done].
  intros [= <-]. eauto.
Qed.

Lemma parse_line_wrong_count (line : list byte) :
  length (parts_of (text_of_line line)) ≠ N_FIELDS →
  parse_line line
  = if PyText.is_nil line || PyText.is_nil (text_of_line line) then Skipped
    else WrongFieldCount (length (parts_of (text_of_line line)))
                         (text_of_line line).
Proof.
  intros Hne. unfold parse_line, parse_text.
  destruct (PyText.is_nil line); [done|].
  destruct (PyText.is_nil (text_of_line line)); [done|]. simpl.
  by destruct (Nat.eqb_spec (length (parts_of (text_of_line line))) N_FIELDS).
Qed.

Lemma parse_line_non_integer (line : list byte) :
  length (parts_of (text_of_line line)) = N_FIELDS →
  ints_of (parts_of (text_of_line line)) = None →
  parse_line line = NonInteger.
Proof.
  intros Hlen Hints. unfold parse_line, parse_text.
  destruct line as [|b line]; [done|]. simpl PyText.is_nil. cbv iota.
  destruct (text_of_line (b :: line)) as [|c text] eqn:Ht; [done|].
  simpl PyText.is_nil. cbv iota.
  rewrite Hlen, Nat.eqb_refl. simpl. by rewrite Hints.
Qed.

Lemma step_read_line (w : world) (line : list byte) :
  reading w → step w (ReadLine line) = run_body line w.
Proof.
  intros (Hd & Ha & Hs). simpl. unfold loop_iteration.
  by rewrite Hd, Ha, Hs.
Qed.

(** C3 (as the code has it): a line whose number of non-empty fields is
    not 17 is never accepted and is skipped: the cache, the CSV file and
    the deques are untouched, no exception ends the loop.  The warning
    is printed when the text of the line is not empty; an empty line is
    skipped without a message.  A line is accepted only with exactly 17
    fields. *)
Theorem wrong_field_count_skipped (w : world) (line : list byte) :
  reading w →
  length (parts_of (text_of_line line)) ≠ N_FIELDS →
  let text := text_of_line line in
  let w' := step w (ReadLine line) in
  (∀ row, parse_line line ≠ Accepted row)
  ∧ latest_row w' = latest_row w
  ∧ reading w'
  ∧ writer w' = writer w ∧ history w' = history w
  ∧ console w'
    = console w
      ++ (if PyText.is_nil line || PyText.is_nil text then []
          else [WarnSkipping (length (parts_of text)) text])
  ∧ (∀ line' row, parse_line line' = Accepted row →
                  length (parts_of (text_of_line line')) = 17).
Proof.
  intros Hr Hne text w'. unfold w'. rewrite step_read_line by done.
  unfold run_body. rewrite parse_line_wrong_count by done. fold text.
  split.
  { intros row. by destruct (_ || _). }
  destruct Hr as (Hd & Ha & Hs).
  destruct (_ || _); simpl; rewrite ?app_nil_r;
    repeat split; try done.
  all: intros line' row Hacc; by apply parse_line_accepted in Hacc as [? _].
Qed.

Lemma wrong_field_count_skipped_witness :
  latest_row (step W_SERIAL (ReadLine LINE_SHORT)) = None
  ∧ ∃ text, console (step W_SERIAL (ReadLine LINE_SHORT)) = [WarnSkipping 16 text].
Proof.
  assert (Hr : reading W_SERIAL) by done.
  assert (Hne : length (parts_of (text_of_line LINE_SHORT)) ≠ N_FIELDS)
    by (vm_compute; lia).
  destruct (wrong_field_count_skipped W_SERIAL LINE_SHORT Hr Hne)
    as (_ & Hrow & _ & _ & _ & Hcon & _).
  split; [exact Hrow|].
  eexists. rewrite Hcon. vm_compute. reflexivity.
Defined.

(** C3 as stated fails on an empty line: it has no field at all, and it
    is skipped without any message. *)
Lemma wrong_field_count_not_logged :
  length (parts_of (text_of_line [x0a])) = 0
  ∧ parse_line [x0a] = Skipped
  ∧ console (step W_SERIAL (ReadLine [x0a])) = console W_SERIAL.
Proof. vm_compute. done. Qed.

(** C4 (as the code has it): a line of 17 fields one of which [int]
    rejects is dropped as a whole, without a message: the reader, its
    cache and its console are exactly as before, and the loop goes
    on. *)
Theorem non_integer_line_skipped (w : world) (line : list byte)
    (p : PyText.text) :
  reading w →
  length (parts_of (text_of_line line)) = N_FIELDS →
  p ∈ parts_of (text_of_line line) →
  PyText.py_int p = None →
  parse_line line = NonInteger
  ∧ step w (ReadLine line) = w
  ∧ reading (step w (ReadLine line)).
Proof.
  intros Hr Hlen Hp Hint.
  assert (Hints : ints_of (parts_of (text_of_line line)) = None).
  { unfold ints_of. apply eq_None_not_Some. intros Hsome.
    apply mapM_is_Some in Hsome. rewrite Forall_forall in Hsome.
    specialize (Hsome p Hp). simpl in Hsome. rewrite Hint in Hsome.
    by destruct Hsome. }
  assert (Hparse : parse_line line = NonInteger)
    by by apply parse_line_non_integer.
  rewrite step_read_line by done. unfold run_body. rewrite Hparse. done.
Qed.

Lemma non_integer_line_skipped_witness :
  parse_line LINE_ALPHA = NonInteger
  ∧ step W_SERIAL (ReadLine LINE_ALPHA) = W_SERIAL.
Proof.
  assert (Hr : reading W_SERIAL) by done.
  refine (let H := non_integer_line_skipped W_SERIAL LINE_ALPHA [120%N] Hr
                     _ _ _ in conj (proj1 H) (proj1 (proj2 H))).
  - vm_compute. reflexivity.
  - vm_compute. repeat first [apply list_elem_of_here | apply list_elem_of_further].
  - vm_compute. reflexivity.
Defined.

(** C4 as stated fails on the message: nothing is printed for such a
    line. *)
Lemma non_integer_line_not_logged :
  length (parts_of (text_of_line LINE_ALPHA)) = 17
  ∧ ints_of (parts_of (text_of_line LINE_ALPHA)) = None
  ∧ console (step W_SERIAL (ReadLine LINE_ALPHA)) = [].
Proof. vm_compute. done. Qed.

(* ================================================================= *)
(** ** The CSV file *)

Lemma step_writer (w : world) (e : event) :
  (∀ now, e ≠ Update now) → writer (step w e) = writer w.
Proof. intros Hne. step_cases w e; try done; by destruct (Hne now). Qed.

Lemma update_writer (now : Z) (w : world) (rows : list csv_row) :
  writer w = Some rows →
  writer (update now w)
  = Some (rows ++ match latest_row w with
                  | Some row => [CsvRow now (csv_cells row)]
                  | None => []
                  end).
Proof.
  intros Hw. unfold update, get_latest.
  destruct (latest_row w) as [row|]; simpl; rewrite Hw; [done|].
  by rewrite app_nil_r.
Qed.

Lemma update_latest_row (now : Z) (w : world) :
  latest_row (update now w) = latest_row w.
Proof.
  unfold update, get_latest. destruct (latest_row w) eqn:Hrow; simpl; congruence.
Qed.

(** C1 (as the code has it): with logging enabled the CSV file is
    written by the timer callback, not by the reader: no event of the
    reader changes the file; a tick that finds the cache empty writes
    nothing; a tick that finds a row appends exactly one data row, the
    cells of that row in the order of the schema under the time read at
    that moment.  In the end-to-end scenario with a tick after each
    accepted line, the file ends with exactly 2 data rows, the lines 1
    and 2 under the times of the two ticks. *)
Theorem log_written_by_timer (w : world) (rows : list csv_row)
    (e : event) (now t1 t2 : Z) :
  writer w = Some rows →
  ((∀ t, e ≠ Update t) → writer (step w e) = Some rows)
  ∧ (latest_row w = None → writer (step w (Update now)) = Some rows)
  ∧ (∀ row, latest_row w = Some row →
       writer (step w (Update now))
       = Some (rows ++ [CsvRow now (csv_cells row)]))
  ∧ writer (run W_SERIAL (E2E_PACED t1 t2))
    = Some [CsvRow t1 (csv_cells ROW1); CsvRow t2 (csv_cells ROW2)]
  ∧ data_rows (run W_SERIAL (E2E_PACED t1 t2)) = Some 2.
Proof.
  intros Hw. split; [|split; [|split]].
  - intros Hne. by rewrite step_writer.
  - intros Hnone. simpl. rewrite (update_writer _ _ rows Hw), Hnone.
    by rewrite app_nil_r.
  - intros row Hrow. simpl. by rewrite (update_writer _ _ rows Hw), Hrow.
  - split; vm_compute; reflexivity.
Qed.

Lemma log_written_by_timer_witness :
  writer (step W_SERIAL (ReadLine LINE1)) = Some []
  ∧ data_rows (run W_SERIAL (E2E_PACED 1000 1100)) = Some 2.
Proof.
  pose proof (log_written_by_timer W_SERIAL [] (ReadLine LINE1) 0 1000 1100
                eq_refl) as (Hread & _ & _ & _ & Hrows).
  split; [apply Hread; discriminate|exact Hrows].
Defined.

(** C1 as stated fails: when the timer fires once after the three
    lines, both valid lines were accepted and the file has a single data
    row, that of line 2; when it fires twice after line 1, that one
    line is in the file twice. *)
Lemma log_not_once_per_record :
  accepted_lines (E2E_BURST 1000) = 2
  ∧ writer (run W_SERIAL (E2E_BURST 1000)) = Some [CsvRow 1000 (csv_cells ROW2)]
  ∧ data_rows (run W_SERIAL (E2E_BURST 1000)) = Some 1
  ∧ accepted_lines (E2E_SLOW 1000 1100) = 1
  ∧ writer (run W_SERIAL (E2E_SLOW 1000 1100))
    = Some [CsvRow 1000 (csv_cells ROW1); CsvRow 1100 (csv_cells ROW1)].
Proof. vm_compute. done. Qed.

Lemma cache_never_reverts_witness :
  ∃ row', (get_latest (run (step W_SERIAL (ReadLine LINE1))
                           [ReadLine LINE_SHORT; Update 5; Stop; ReadLine LINE2])).2
          = Some row'.
Proof.
  destruct (cache_never_reverts (step W_SERIAL (ReadLine LINE1))
              [ReadLine LINE_SHORT; Update 5; Stop; ReadLine LINE2] ROW1)
    as (row' & Hget & _).
  - reflexivity.
  - exists row'. exact Hget.
Defined.

Lemma cache_latest_wins_witness :
  get_latest_n 3 (run (store_latest ROW2 (store_latest ROW1 W_SERIAL))
                      [ReadLine LINE_SHORT; Update 7; ReadLine LINE_ALPHA; Stop])
  = (run (store_latest ROW2 (store_latest ROW1 W_SERIAL))
         [ReadLine LINE_SHORT; Update 7; ReadLine LINE_ALPHA; Stop],
     [Some ROW2; Some ROW2; Some ROW2]).
Proof.
  refine (proj2 (cache_latest_wins W_SERIAL ROW1 ROW2
            [ReadLine LINE_SHORT; Update 7; ReadLine LINE_ALPHA; Stop] 3 _)).
  reflexivity.
Defined.

(* ================================================================= *)
(** ** Decoding, stripping and splitting *)

Section TextLemmas.

Import PyText.
Local Open Scope N_scope.

Implicit Types (t s : text) (c a : N) (p : N → bool).

Lemma drop_while_app_false p t c :
  p c = false → drop_while p (t ++ [c]) = drop_while p t ++ [c].
Proof.
  intros Hc. induction t as [|x t IH]; simpl; [by rewrite Hc|].
  by destruct (p x).
Qed.

Lemma take_while_app_false p t c :
  p c = false → take_while p (t ++ [c]) = take_while p t.
Proof.
  intros Hc. induction t as [|x t IH]; simpl; [by rewrite Hc|].
  destruct (p x); [by rewrite IH|done].
Qed.

Lemma drop_while_app_true p t c :
  p c = true →
  drop_while p (t ++ [c])
  = if is_nil (drop_while p t) then [] else drop_while p t ++ [c].
Proof.
  intros Hc. induction t as [|x t IH]; simpl; [by rewrite Hc|].
  destruct (p x); [done|]. done.
Qed.



(** *** [rstrip] *)

Lemma rstrip_snoc c t : rstrip c (t ++ [c]) = rstrip c t.
Proof.
  unfold rstrip. rewrite rev_app_distr. simpl. by rewrite N.eqb_refl.
Qed.

Lemma rstrip_snoc_ne c t a : a ≠ c → rstrip c (t ++ [a]) = t ++ [a].
Proof.
  intros Hne. unfold rstrip. rewrite rev_app_distr. simpl.
  destruct (N.eqb_spec c a) as [->|_]; [done|].
  simpl. by rewrite rev_involutive.
Qed.

(** *** The decoder *)

Lemma decode_ascii_cons a bs :
  a < 0x80 → utf8_decode_ignore (a :: bs) = a :: utf8_decode_ignore bs.
Proof. intros Ha. simpl. by destruct (N.ltb_spec a 0x80); [|lia]. Qed.


Lemma is_cont_ascii a : a < 0x80 → is_cont a = false.
Proof.
  intros Ha. unfold is_cont, in_range.
  destruct (N.leb_spec 0x80 a); [lia|done].
Qed.

Lemma second_ok_ascii b0 a : a < 0x80 → second_ok b0 a = false.
Proof.
  intros Ha. unfold second_ok, is_cont, in_range.
  repeat match goal with |- context [?x =? ?y] => destruct (x =? y) end;
    repeat match goal with
           | |- context [?x <=? a] => destruct (N.leb_spec x a); [lia|]
           end; done.
Qed.

(** A byte below 0x80 after any bytes decodes to itself: whatever
    unfinished sequence precedes it is dropped. *)
Lemma decode_snoc_ascii bs a :
  a < 0x80 →
  utf8_decode_ignore (bs ++ [a]) = utf8_decode_ignore bs ++ [a].
Proof.
  intros Ha.
  assert (Hone : utf8_decode_ignore [a] = [a])
    by (by rewrite decode_ascii_cons).
  assert (Hc := is_cont_ascii a Ha).
  assert (Hs := fun b0 => second_ok_ascii b0 a Ha).
  remember (length bs) as n eqn:Hn.
  revert bs Hn. induction n as [n IH] using lt_wf_ind. intros bs Hn.
  destruct bs as [|b0 r0]; [done|].
  assert (IH0 : utf8_decode_ignore (r0 ++ [a]) = utf8_decode_ignore r0 ++ [a]).
  { apply (IH (length r0)); [subst n; simpl; lia | done]. }
  change ((b0 :: r0) ++ [a]) with (b0 :: (r0 ++ [a])).
  cbn [utf8_decode_ignore].
  destruct (b0 <? 0x80); [by rewrite IH0|].
  destruct (in_range 0xC2 0xDF b0).
  { destruct r0 as [|b1 r1]; [simpl; by rewrite Hc|].
    change ((b1 :: r1) ++ [a]) with (b1 :: (r1 ++ [a])) in *.
    cbv iota beta.
    destruct (is_cont b1); [|exact IH0].
    rewrite (IH (length r1)); [done| subst n; simpl; lia | done]. }
  destruct (in_range 0xE0 0xEF b0).
  { destruct r0 as [|b1 [|b2 r2]].
    - exact IH0.
    - simpl app. cbv iota beta. rewrite Hc, andb_false_r. exact IH0.
    - change ((b1 :: b2 :: r2) ++ [a]) with (b1 :: b2 :: (r2 ++ [a])) in *.
      cbv iota beta.
      destruct (second_ok b0 b1 && is_cont b2); [|exact IH0].
      rewrite (IH (length r2)); [done| subst n; simpl; lia | done]. }
  destruct (in_range 0xF0 0xF4 b0); [|exact IH0].
  destruct r0 as [|b1 [|b2 [|b3 r3]]].
  - exact IH0.
  - exact IH0.
  - simpl app. cbv iota beta. rewrite Hc, andb_false_r. exact IH0.
  - change ((b1 :: b2 :: b3 :: r3) ++ [a])
      with (b1 :: b2 :: b3 :: (r3 ++ [a])) in *.
    cbv iota beta.
    destruct (second_ok b0 b1 && is_cont b2 && is_cont b3); [|exact IH0].
    rewrite (IH (length r3)); [done| subst n; simpl; lia | done].
Qed.

(** *** [split] *)

Lemma split_not_nil c t : split c t ≠ [].
Proof.
  destruct t as [|x t]; simpl; [done|].
  destruct (x =? c); [done|]. by destruct (split c t).
Qed.

(** A character other than the separator extends the last piece. *)
Lemma split_snoc sep t c (init : list text) (lst : text) :
  c ≠ sep →
  split sep t = init ++ [lst] →
  split sep (t ++ [c]) = init ++ [lst ++ [c]].
Proof.
  intros Hc. revert init lst.
  induction t as [|x t IH]; intros init lst Hsplit; simpl in *.
  - destruct init as [|i0 [|i1 init]]; simplify_eq/=.
    by destruct (N.eqb_spec c sep).
  - destruct (x =? sep).
    + destruct init as [|i0 init]; simplify_eq/=.
      * by destruct (split_not_nil sep t).
      * f_equal. by apply IH.
    + destruct (split sep t) as [|tok toks] eqn:Hst;
        [by destruct (split_not_nil sep t)|].
      destruct init as [|i0 init]; simplify_eq/=.
      * by rewrite (IH [] tok eq_refl).
      * by rewrite (IH (tok :: init) lst eq_refl).
Qed.

Lemma split_last sep t : ∃ init lst, split sep t = init ++ [lst].
Proof.
  destruct (split sep t) as [|x l] eqn:Hs using rev_ind;
    [by destruct (split_not_nil sep t)|eauto].
Qed.


(** *** [int] *)

Lemma is_space_cr : is_space CR = true.
Proof. reflexivity. Qed.

(** A trailing carriage return is white space for [int]. *)
Lemma digits_to_end_cr (neg : bool) s :
  digits_to_end neg (s ++ [CR]) = digits_to_end neg s.
Proof.
  unfold digits_to_end.
  rewrite (take_while_app_false is_digit_or_us s CR eq_refl).
  rewrite (drop_while_app_false is_digit_or_us s CR eq_refl).
  rewrite (drop_while_app_true is_space _ CR is_space_cr).
  by destruct (drop_while is_space (drop_while is_digit_or_us s)).
Qed.

Lemma long_from_string_cr s :
  long_from_string (s ++ [CR]) = long_from_string s.
Proof.
  unfold long_from_string.
  rewrite (drop_while_app_true is_space s CR is_space_cr).
  destruct (drop_while is_space s) as [|c r] eqn:Hs1; [done|].
  cbn [is_nil]. cbv iota.
  change ((c :: r) ++ [CR]) with (c :: (r ++ [CR])).
  unfold strip_sign.
  destruct (c =? PLUS); [apply digits_to_end_cr|].
  destruct (c =? MINUS); [apply digits_to_end_cr|].
  apply (digits_to_end_cr false (c :: r)).
Qed.

Lemma transform_snoc t c :
  c < 127 →
  transform_decimal_and_space (t ++ [c]) = transform_decimal_and_space t
  ∨ transform_decimal_and_space (t ++ [c])
    = transform_decimal_and_space t ++ [c].
Proof.
  intros Hc. induction t as [|x t IH]; simpl.
  - right. by destruct (N.ltb_spec c 127); [|lia].
  - destruct (x <? 127); [destruct IH as [-> | ->]; auto|].
    destruct (unicode_space x); [destruct IH as [-> | ->]; auto|].
    destruct (unicode_decimal x); [destruct IH as [-> | ->]; auto|].
    by left.
Qed.

Lemma py_int_cr t : py_int (t ++ [CR]) = py_int t.
Proof.
  unfold py_int.
  destruct (transform_snoc t CR) as [-> | ->]; [done|done|].
  apply long_from_string_cr.
Qed.


(** *** [str] of an integer and back *)








End TextLemmas.

(* ================================================================= *)
(** ** Lines and their terminators *)

Section Lines.

Import PyText.
Local Open Scope N_scope.


Lemma endswith_cr_snoc (line : list byte) (b : byte) :
  endswith_cr (line ++ [b]) = (Byte.to_N b =? CR).
Proof. unfold endswith_cr. by rewrite last_snoc. Qed.

Lemma decode_snoc (line : list byte) (b : byte) :
  Byte.to_N b < 0x80 → decode (line ++ [b]) = decode line ++ [Byte.to_N b].
Proof.
  intros Hb. unfold decode. rewrite map_app. by apply decode_snoc_ascii.
Qed.

(** The text of a line that does not end with a carriage return. *)
Lemma text_of_line_plain (payload : list byte) :
  endswith_cr payload = false →
  text_of_line payload = rstrip LF (decode payload).
Proof. intros Hcr. unfold text_of_line. by rewrite Hcr. Qed.

Lemma text_of_line_lf (payload : list byte) :
  text_of_line (payload ++ [x0a]) = rstrip LF (decode payload).
Proof.
  unfold text_of_line. rewrite endswith_cr_snoc. simpl.
  rewrite decode_snoc by done. apply rstrip_snoc.
Qed.

Lemma text_of_line_lf_cr (payload : list byte) :
  text_of_line (payload ++ [x0a; x0d]) = rstrip LF (decode payload).
Proof.
  unfold text_of_line.
  change (payload ++ [x0a; x0d]) with (payload ++ [x0a] ++ [x0d]).
  rewrite app_assoc, endswith_cr_snoc. simpl.
  rewrite removelast_last, decode_snoc by done. apply rstrip_snoc.
Qed.

(** After CR LF only the LF goes: the CR stays in the text. *)
Lemma text_of_line_cr_lf (payload : list byte) :
  text_of_line (payload ++ [x0d; x0a]) = decode payload ++ [CR].
Proof.
  unfold text_of_line.
  change (payload ++ [x0d; x0a]) with (payload ++ [x0d] ++ [x0a]).
  rewrite app_assoc, endswith_cr_snoc. simpl.
  rewrite !decode_snoc by done. simpl.
  rewrite rstrip_snoc. by apply rstrip_snoc_ne.
Qed.

Lemma text_of_line_nil : text_of_line [] = [].
Proof. reflexivity. Qed.

Lemma parse_line_as_text (line : list byte) :
  parse_line line = parse_text (text_of_line line).
Proof.
  unfold parse_line. destruct line as [|b line]; [|done].
  by rewrite text_of_line_nil.
Qed.

(** Fields of a text that ends with a character of a field, and of
    the same text followed by CR. *)
Lemma parts_of_snoc_cr (t : text) (d : N) :
  d ≠ SEMI →
  ∃ (front : list text) (lst : text),
    parts_of (t ++ [d]) = front ++ [lst]
    ∧ parts_of ((t ++ [d]) ++ [CR]) = front ++ [lst ++ [CR]].
Proof.
  intros Hd. destruct (split_last SEMI t) as (init & lst0 & Hsplit).
  pose proof (split_snoc SEMI t d init lst0 Hd Hsplit) as H1.
  pose proof (split_snoc SEMI (t ++ [d]) CR init (lst0 ++ [d])
                ltac:(done) H1) as H2.
  exists (List.filter (fun p => negb (is_nil p)) init), (lst0 ++ [d]).
  unfold parts_of. rewrite H1, H2, !List.filter_app. simpl.
  split; f_equal; by destruct lst0.
Qed.

Lemma ints_of_snoc_cr (front : list text) (lst : text) :
  ints_of (front ++ [lst ++ [CR]]) = ints_of (front ++ [lst]).
Proof.
  unfold ints_of. induction front as [|p front IH]; simpl.
  - by rewrite py_int_cr.
  - by rewrite IH.
Qed.

Lemma parse_text_snoc_cr (t : text) (d : N) :
  d ≠ SEMI →
  parse_text ((t ++ [d]) ++ [CR])
  = match parse_text (t ++ [d]) with
    | WrongFieldCount n text => WrongFieldCount n (text ++ [CR])
    | r => r
    end.
Proof.
  intros Hd. destruct (parts_of_snoc_cr t d Hd) as (front & lst & H1 & H2).
  unfold parse_text. rewrite H1, H2, ints_of_snoc_cr, !length_app. simpl.
  assert (Hn1 : is_nil ((t ++ [d]) ++ [CR]) = false) by by destruct t.
  assert (Hn2 : is_nil (t ++ [d]) = false) by by destruct t.
  rewrite Hn1, Hn2.
  destruct (negb _); [done|]. by destruct (ints_of _).
Qed.

(** *** The serialised tuple *)










End Lines.

(** *** [dict(zip(keys, values))] *)

Lemma dict_zip_fold (kvs : list (string * Z)) (d : gmap string Z) (k : string) :
  NoDup kvs.*1 →
  fold_left (fun d kv => <[kv.1 := kv.2]> d) kvs d !! k
  = match list_find (fun kv => kv.1 = k) kvs with
    | Some (_, kv) => Some kv.2
    | None => d !! k
    end.
Proof.
  revert d. induction kvs as [|[k0 v0] kvs IH]; intros d Hnd; [done|].
  apply NoDup_cons in Hnd as [Hk0 Hnd]. cbn [fold_left list_find].
  rewrite IH by done. simpl. destruct (decide (k0 = k)) as [->|Hne].
  - cbn. destruct (list_find _ kvs) as [[j [k1 v1]]|] eqn:Hfind.
    + apply list_find_Some in Hfind as (Hj & Hk1 & _). simpl in Hk1. subst k1.
      destruct Hk0. apply list_elem_of_fmap. exists (k, v1).
      split; [done|]. by eapply list_elem_of_lookup_2.
    + simpl. by rewrite lookup_insert_eq.
  - destruct (list_find _ kvs) as [[j [k1 v1]]|]; simpl; [done|].
    by rewrite lookup_insert_ne.
Qed.

Lemma FIELDS_NoDup : NoDup FIELDS.
Proof. apply NoDup_ListNoDup. repeat constructor; simpl; intuition discriminate. Qed.

Lemma dict_zip_lookup (keys : list string) (values : list Z) (i : nat) (k : string) :
  NoDup keys → length values = length keys →
  keys !! i = Some k → dict_zip keys values !! k = values !! i.
Proof.
  intros Hnd Hlen Hk. unfold dict_zip.
  rewrite dict_zip_fold by (by rewrite fst_zip by lia).
  destruct (lookup_lt_is_Some_2 values i) as [v Hv].
  { rewrite Hlen. by eapply lookup_lt_Some. }
  rewrite Hv.
  destruct (list_find _ _) as [[j [k1 v1]]|] eqn:Hfind.
  - apply list_find_Some in Hfind as (Hj & Hk1 & _). simpl in Hk1. subst k1.
    apply lookup_zip_Some in Hj as [Hkj Hvj].
    assert (i = j) as -> by (by eapply NoDup_lookup).
    simpl. congruence.
  - apply list_find_None in Hfind. rewrite Forall_forall in Hfind.
    destruct (Hfind (k, v)); [|done].
    apply list_elem_of_lookup. exists i. by apply lookup_zip_Some.
Qed.



(** C6 (as the code has it): one carriage return at the very end of the
    line is removed, then every trailing line feed.  For a payload that
    does not itself end with a carriage return, the payload followed by
    LF, or by LF and a stray CR, parses exactly as the bare payload.
    After CR LF only the LF is removed: the CR stays in the text; when
    the text of the payload ends with a character of a field, the CR
    joins the last field, where [int] ignores it, and the result is that
    of the bare payload (with the CR in the text of a warning). *)
Theorem line_terminators (payload : list byte) :
  PyText.endswith_cr payload = false →
  parse_line (payload ++ [x0a]) = parse_line payload
  ∧ parse_line (payload ++ [x0a; x0d]) = parse_line payload
  ∧ text_of_line (payload ++ [x0d; x0a]) = PyText.decode payload ++ [PyText.CR]
  ∧ ∀ (t : PyText.text) (d : N),
      PyText.decode payload = t ++ [d] → d ≠ PyText.SEMI → d ≠ PyText.LF →
      parse_line (payload ++ [x0d; x0a])
      = match parse_line payload with
        | WrongFieldCount n text => WrongFieldCount n (text ++ [PyText.CR])
        | r => r
        end.
Proof.
  intros Hcr. rewrite !parse_line_as_text.
  rewrite text_of_line_lf, text_of_line_lf_cr, text_of_line_cr_lf.
  rewrite (text_of_line_plain payload Hcr).
  repeat split; try done.
  intros t d Ht Hsemi Hlf. rewrite Ht.
  rewrite (rstrip_snoc_ne PyText.LF t d) by done.
  by apply parse_text_snoc_cr.
Qed.

Lemma line_terminators_witness :
  parse_line (PAYLOAD1 ++ [x0a]) = parse_line PAYLOAD1
  ∧ parse_line (PAYLOAD1 ++ [x0a; x0d]) = parse_line PAYLOAD1.
Proof.
  pose proof (line_terminators PAYLOAD1 eq_refl) as (Hlf & Hlfcr & _).
  exact (conj Hlf Hlfcr).
Defined.

(** C6 as stated fails for CR LF: the payload that ends with the
    delimiter is accepted bare, and rejected with 18 fields when CR LF
    follows it. *)
Lemma cr_lf_not_stripped :
  parse_line PAYLOAD1_SEMI = Accepted ROW1
  ∧ parse_line (PAYLOAD1_SEMI ++ [x0a]) = Accepted ROW1
  ∧ ∃ text, parse_line (PAYLOAD1_SEMI ++ [x0d; x0a]) = WrongFieldCount 18 text.
Proof.
  split; [reflexivity|]. split; [reflexivity|].
  eexists. vm_compute. reflexivity.
Qed.

(* ================================================================= *)
(** ** Floats that stay finite *)

Section FloatBounds.

Import PyNum.
Local Open Scope Z_scope.

Lemma digits2_size (p : positive) : digits2_pos p = Pos.size p.
Proof. induction p as [p IH|p IH|]; simpl; by rewrite ?IH. Qed.

Lemma digits_pow_gt (p : positive) : Zpos p < 2 ^ Zpos (digits2_pos p).
Proof.
  rewrite digits2_size. pose proof (Pos.size_gt p) as H.
  apply Pos2Z.pos_lt_pos in H. by rewrite Pos2Z.inj_pow in H.
Qed.

Lemma digits_pow_le (p : positive) : 2 ^ Zpos (digits2_pos p) ≤ 2 * Zpos p.
Proof.
  rewrite digits2_size. pose proof (Pos.size_le p) as H.
  apply Pos2Z.pos_le_pos in H. by rewrite Pos2Z.inj_pow in H.
Qed.

Lemma digits_le_iff (p : positive) (k : Z) :
  0 ≤ k → Zpos (digits2_pos p) ≤ k ↔ Zpos p < 2 ^ k.
Proof.
  intros Hk. split.
  - intros Hd. eapply Z.lt_le_trans; [apply digits_pow_gt|].
    apply Z.pow_le_mono_r; lia.
  - intros Hp. destruct (Z.le_gt_cases (Zpos (digits2_pos p)) k) as [|Hgt];
      [done|].
    pose proof (digits_pow_le p) as Hle.
    assert (Hpow : 2 ^ (k + 1) ≤ 2 ^ Zpos (digits2_pos p))
      by (apply Z.pow_le_mono_r; lia).
    rewrite Z.pow_add_r in Hpow by lia. change (2 ^ 1) with 2 in Hpow. lia.
Qed.

Lemma Zdigits2_nonneg (z : Z) : 0 ≤ Zdigits2 z.
Proof. destruct z; simpl; lia. Qed.

Lemma Zdigits2_le (z k : Z) : 0 ≤ z → 0 ≤ k → z < 2 ^ k → Zdigits2 z ≤ k.
Proof.
  intros Hz Hk Hlt. destruct z as [|p|p]; simpl; [done| |lia].
  by apply digits_le_iff.
Qed.

Lemma Zdigits2_gt (z : Z) : 0 ≤ z → z < 2 ^ Zdigits2 z.
Proof.
  intros Hz. destruct z as [|p|p]; simpl; [done| |lia]. apply digits_pow_gt.
Qed.

(** *** Shifting to the right *)

Lemma shr_1_m (mrs : shr_record) :
  0 ≤ shr_m mrs → shr_m (shr_1 mrs) = shr_m mrs / 2.
Proof.
  destruct mrs as [m r s]. simpl. intros Hm.
  rewrite <- Z.div2_div.
  destruct m as [|[p|p|]|p]; simpl; try done; lia.
Qed.

Lemma iter_shr_m (p : positive) (mrs : shr_record) :
  0 ≤ shr_m mrs →
  shr_m (SpecFloat.iter_pos shr_1 p mrs) = shr_m mrs / 2 ^ Zpos p.
Proof.
  revert mrs. induction p as [p IH|p IH|]; intros mrs Hm; simpl SpecFloat.iter_pos.
  - assert (H1 : 0 ≤ shr_m (shr_1 mrs))
      by (rewrite shr_1_m by done; by apply Z.div_pos).
    assert (H2 : 0 ≤ shr_m (SpecFloat.iter_pos shr_1 p (shr_1 mrs))).
    { rewrite IH by done. apply Z.div_pos; [done|]. lia. }
    rewrite IH, IH, shr_1_m by done.
    rewrite !Z.div_div by lia. f_equal.
    rewrite Pos2Z.inj_xI, Z.pow_add_r, Z.pow_mul_r by lia.
    change (2 ^ 2) with 4. change (2 ^ 1) with 2.
    rewrite <- Z.pow_twice_r. rewrite Z.pow_mul_r by lia.
    change (2 ^ 2) with 4. lia.
  - assert (H2 : 0 ≤ shr_m (SpecFloat.iter_pos shr_1 p mrs)).
    { rewrite IH by done. apply Z.div_pos; [done|]. lia. }
    rewrite IH, IH by done. rewrite Z.div_div by lia. f_equal.
    rewrite Pos2Z.inj_xO. rewrite <- Z.pow_twice_r. done.
  - rewrite shr_1_m by done. done.
Qed.

Lemma fexp_eq (k : Z) : fexp prec emax k = Z.max (k - 53) (-1074).
Proof. reflexivity. Qed.

Lemma shr_record_of_loc_m (m : Z) (l : location) :
  shr_m (shr_record_of_loc m l) = m.
Proof. by destruct l as [|[]]. Qed.

(** [shr_fexp] moves the exponent up to the one the format wants and
    divides the mantissa accordingly. *)
Lemma shr_fexp_spec (m e : Z) (l : location) :
  0 ≤ m →
  ∃ mrs, shr_fexp prec emax m e l
         = (mrs, Z.max e (fexp prec emax (Zdigits2 m + e)))
         ∧ shr_m mrs = m / 2 ^ (Z.max e (fexp prec emax (Zdigits2 m + e)) - e).
Proof.
  intros Hm. unfold shr_fexp, shr.
  destruct (fexp prec emax (Zdigits2 m + e) - e) as [|p|p] eqn:Hd.
  - eexists. split; [f_equal; lia|].
    rewrite shr_record_of_loc_m.
    replace (Z.max e _ - e) with 0 by lia. by rewrite Z.div_1_r.
  - eexists. split; [f_equal; lia|].
    rewrite iter_shr_m by (by rewrite shr_record_of_loc_m).
    rewrite shr_record_of_loc_m. do 2 f_equal. lia.
  - eexists. split; [f_equal; lia|].
    rewrite shr_record_of_loc_m.
    replace (Z.max e _ - e) with 0 by lia. by rewrite Z.div_1_r.
Qed.

Lemma round_nearest_even_bounds (m : Z) (l : location) :
  m ≤ round_nearest_even m l ≤ m + 1.
Proof.
  unfold round_nearest_even. destruct l as [|[]]; try lia.
  destruct (Z.even m); lia.
Qed.

Lemma small_mono (E E' : Z) (f : spec_float) :
  E ≤ E' → small E f → small E' f.
Proof. intros HE. destruct f; simpl; try done. lia. Qed.

Lemma div_pow_lt (m a b : Z) :
  0 ≤ m → 0 ≤ a → 0 ≤ b → m < 2 ^ (a + b) → m / 2 ^ a < 2 ^ b.
Proof.
  intros Hm Ha Hb Hlt. apply Z.div_lt_upper_bound; [lia|].
  by rewrite <- Z.pow_add_r.
Qed.

(** Rounding does not overflow when the value is far below the
    largest float. *)
Lemma round_aux_small (s : bool) (mx ex : Z) (lx : location) (E : Z) :
  0 ≤ mx → -1074 ≤ E ≤ 970 → ex ≤ E → Zdigits2 mx + ex ≤ E + 53 →
  small (E + 1) (binary_round_aux prec emax s mx ex lx).
Proof.
  intros Hmx HE Hex Hdig. unfold binary_round_aux.
  destruct (shr_fexp_spec mx ex lx Hmx) as (mrs1 & -> & Hm1).
  set (e1 := Z.max ex (fexp prec emax (Zdigits2 mx + ex))) in *.
  assert (He1 : ex ≤ e1 ∧ -1074 ≤ e1 ≤ E ∧ Zdigits2 mx - 53 ≤ e1 - ex).
  { unfold e1. rewrite fexp_eq. lia. }
  assert (Hm1b : 0 ≤ shr_m mrs1 < 2 ^ 53).
  { rewrite Hm1. split; [apply Z.div_pos; lia|].
    apply div_pow_lt; [lia..|].
    eapply Z.lt_le_trans; [by apply Zdigits2_gt|].
    apply Z.pow_le_mono_r; lia. }
  pose proof (round_nearest_even_bounds (shr_m mrs1)
                (loc_of_shr_record mrs1)) as Hr.
  set (mr := round_nearest_even (shr_m mrs1) (loc_of_shr_record mrs1)) in *.
  assert (Hmr : 0 ≤ mr) by lia.
  destruct (shr_fexp_spec mr e1 loc_Exact Hmr) as (mrs2 & -> & Hm2).
  set (e2 := Z.max e1 (fexp prec emax (Zdigits2 mr + e1))) in *.
  assert (Hd54 : Zdigits2 mr ≤ 54).
  { apply Zdigits2_le; [lia..|]. change (2 ^ 54) with (2 * 2 ^ 53). lia. }
  assert (He2 : e1 ≤ e2 ≤ E + 1).
  { unfold e2. rewrite fexp_eq. lia. }
  assert (Hm2b : 0 ≤ shr_m mrs2 < 2 ^ 53).
  { rewrite Hm2. split; [apply Z.div_pos; lia|].
    destruct (Z.eq_dec mr (2 ^ 53)) as [Heq|Hne].
    - assert (He2' : e2 = e1 + 1).
      { unfold e2. rewrite Heq, fexp_eq.
        change (Zdigits2 (2 ^ 53)) with 54. lia. }
      rewrite He2', Heq. replace (e1 + 1 - e1) with 1 by lia. done.
    - assert (Hpow : 1 ≤ 2 ^ (e2 - e1)).
      { assert (0 < 2 ^ (e2 - e1)) by (apply Z.pow_pos_nonneg; lia). lia. }
      apply Z.le_lt_trans with mr; [|lia].
      apply Z.div_le_upper_bound; [lia|]. nia. }
  destruct (shr_m mrs2) as [|m|m] eqn:Hshr; simpl; [done| |lia].
  destruct (Z.leb_spec e2 (emax - prec)) as [_|Hbad];
    [|unfold emax, prec in Hbad; lia].
  simpl. split; [|lia]. apply digits_le_iff; lia.
Qed.

Lemma iter_xO_value (m d : positive) :
  Zpos (Pos.iter xO m d) = Zpos m * 2 ^ Zpos d.
Proof.
  induction d as [|d IH] using Pos.peano_ind.
  - simpl. lia.
  - rewrite Pos.iter_succ, Pos2Z.inj_xO, IH, Pos2Z.inj_succ.
    rewrite Z.pow_succ_r by lia. lia.
Qed.

Lemma shl_align_spec (mx : positive) (ex ex' : Z) :
  ∃ mz ez, shl_align mx ex ex' = (mz, ez)
           ∧ ez = Z.min ex ex'
           ∧ Zpos mz = Zpos mx * 2 ^ (ex - ez).
Proof.
  unfold shl_align. destruct (ex' - ex) as [|d|d] eqn:Hd.
  - exists mx, ex. repeat split; [lia|].
    rewrite Z.sub_diag. simpl. lia.
  - exists mx, ex. repeat split; [lia|].
    rewrite Z.sub_diag. simpl. lia.
  - exists (Pos.iter xO mx d), ex'. repeat split; [lia|].
    rewrite iter_xO_value. do 2 f_equal. lia.
Qed.

Lemma pos_lt_pow53 (m : positive) :
  Zpos (digits2_pos m) ≤ 53 → Zpos m < 2 ^ 53.
Proof. intros Hd. by apply digits_le_iff. Qed.

Lemma Zdigits2_abs_le (z k : Z) : 0 ≤ k → Z.abs z < 2 ^ k → Zdigits2 z ≤ k.
Proof.
  intros Hk Hz. destruct z as [|p|p]; simpl in *; [done|..];
    by apply digits_le_iff.
Qed.

Lemma binary_round_small (s : bool) (m : positive) (e E : Z) :
  -1074 ≤ E ≤ 970 → e ≤ E → Zpos (digits2_pos m) + e ≤ E + 53 →
  small (E + 1) (binary_round prec emax s m e).
Proof.
  intros HE He Hdig. unfold binary_round.
  destruct (shl_align_spec m e (fexp prec emax (Zpos (digits2_pos m) + e)))
    as (mz & ez & -> & Hez & Hmz).
  apply round_aux_small; [lia|done|lia|].
  assert (Hz : Zpos mz < 2 ^ (E + 53 - ez)).
  { rewrite Hmz.
    replace (E + 53 - ez) with ((E + 53 - e) + (e - ez)) by lia.
    rewrite Z.pow_add_r by lia.
    apply Z.mul_lt_mono_pos_r; [apply Z.pow_pos_nonneg; lia|].
    apply digits_le_iff; lia. }
  assert (Zdigits2 (Zpos mz) ≤ E + 53 - ez)
    by (apply Zdigits2_le; lia).
  lia.
Qed.

Lemma binary_normalize_small (z e E : Z) (szero : bool) :
  -1074 ≤ E ≤ 970 → e ≤ E → Z.abs z < 2 ^ (E + 53 - e) →
  small (E + 1) (binary_normalize prec emax z e szero).
Proof.
  intros HE He Hz.
  assert (Hd : Zdigits2 z ≤ E + 53 - e) by (apply Zdigits2_abs_le; lia).
  destruct z as [|m|m]; simpl in *; [done|..];
    apply binary_round_small; lia.
Qed.

(** The mantissa of a small float, brought down to the exponent
    [ez]. *)
Lemma aligned_bound (m : positive) (e ez E : Z) :
  Zpos (digits2_pos m) ≤ 53 → ez ≤ e → e ≤ E →
  Zpos (fst (shl_align m e ez)) < 2 ^ (53 + E - ez).
Proof.
  intros Hd Hez He.
  destruct (shl_align_spec m e ez) as (mz & ez' & -> & -> & Hmz).
  simpl. rewrite Hmz. replace (Z.min e ez) with ez by lia.
  replace (53 + E - ez) with (53 + (E - ez)) by lia.
  rewrite Z.pow_add_r by lia.
  apply Z.lt_le_trans with (2 ^ 53 * 2 ^ (e - ez)).
  - apply Z.mul_lt_mono_pos_r; [apply Z.pow_pos_nonneg; lia|].
    by apply pos_lt_pow53.
  - apply Z.mul_le_mono_nonneg_l; [lia|]. apply Z.pow_le_mono_r; lia.
Qed.

Lemma cond_Zopp_abs (b : bool) (z : Z) : Z.abs (cond_Zopp b z) = Z.abs z.
Proof. destruct b; simpl; lia. Qed.

Lemma sum_small (sx sy : bool) (mx my : positive) (ex ey E : Z) (sub : bool) :
  -1074 ≤ E + 1 ≤ 970 →
  Zpos (digits2_pos mx) ≤ 53 → ex ≤ E →
  Zpos (digits2_pos my) ≤ 53 → ey ≤ E →
  let ez := Z.min ex ey in
  let ax := cond_Zopp sx (Zpos (fst (shl_align mx ex ez))) in
  let ay := cond_Zopp sy (Zpos (fst (shl_align my ey ez))) in
  small (E + 2)
    (binary_normalize prec emax (if sub then ax - ay else ax + ay) ez false).
Proof.
  intros HE Hdx Hex Hdy Hey ez ax ay.
  replace (E + 2) with (E + 1 + 1) by lia.
  apply binary_normalize_small; [done|lia|].
  pose proof (aligned_bound mx ex ez E Hdx ltac:(lia) Hex) as Hax.
  pose proof (aligned_bound my ey ez E Hdy ltac:(lia) Hey) as Hay.
  assert (Habs : Z.abs (if sub then ax - ay else ax + ay)
                 ≤ Z.abs ax + Z.abs ay) by (destruct sub; lia).
  assert (Hax' : Z.abs ax < 2 ^ (53 + E - ez))
    by (unfold ax; rewrite cond_Zopp_abs; lia).
  assert (Hay' : Z.abs ay < 2 ^ (53 + E - ez))
    by (unfold ay; rewrite cond_Zopp_abs; lia).
  replace (E + 1 + 53 - ez) with (1 + (53 + E - ez)) by lia.
  rewrite Z.pow_add_r by lia. change (2 ^ 1) with 2. lia.
Qed.

Lemma SFadd_small (E : Z) (x y : spec_float) :
  -1074 ≤ E + 1 ≤ 970 → small E x → small E y →
  small (E + 2) (SFadd prec emax x y).
Proof.
  intros HE Hx Hy.
  destruct x as [sx|sx| |sx mx ex], y as [sy|sy| |sy my ey];
    simpl in Hx, Hy; try done.
  - by destruct sx, sy.
  - simpl. lia.
  - simpl. lia.
  - destruct Hx, Hy. by apply (sum_small sx sy mx my ex ey E false).
Qed.

Lemma SFsub_small (E : Z) (x y : spec_float) :
  -1074 ≤ E + 1 ≤ 970 → small E x → small E y →
  small (E + 2) (SFsub prec emax x y).
Proof.
  intros HE Hx Hy.
  destruct x as [sx|sx| |sx mx ex], y as [sy|sy| |sy my ey];
    simpl in Hx, Hy; try done.
  - by destruct sx, sy.
  - simpl. lia.
  - simpl. lia.
  - destruct Hx, Hy. by apply (sum_small sx sy mx my ex ey E true).
Qed.

Lemma SFmul_small (Ex Ey : Z) (x y : spec_float) :
  -1074 ≤ Ex + Ey + 53 ≤ 970 → small Ex x → small Ey y →
  small (Ex + Ey + 54) (SFmul prec emax x y).
Proof.
  intros HE Hx Hy.
  destruct x as [sx|sx| |sx mx ex], y as [sy|sy| |sy my ey];
    simpl in Hx, Hy; try done.
  destruct Hx as [Hdx Hex], Hy as [Hdy Hey]. unfold SFmul.
  replace (Ex + Ey + 54) with (Ex + Ey + 53 + 1) by lia.
  apply round_aux_small; [lia|done|lia|].
  pose proof (pos_lt_pow53 mx Hdx). pose proof (pos_lt_pow53 my Hdy).
  assert (Zdigits2 (Zpos (mx * my)) ≤ 106).
  { apply Zdigits2_le; [lia..|]. rewrite Pos2Z.inj_mul.
    change (2 ^ 106) with (2 ^ 53 * 2 ^ 53).
    apply Z.mul_lt_mono_nonneg; lia. }
  lia.
Qed.

Lemma small_trunc (E : Z) (f : spec_float) :
  small E f → is_Some (float_trunc f).
Proof. destruct f; simpl; try done; eauto. Qed.

(** *** [x % 1] *)

Lemma fmod_one_small (x : spec_float) :
  sf_finite x = true → small 0 (fmod_one x).
Proof.
  destruct x as [s|s| |s m e]; simpl; try done. intros _.
  destruct (Z.leb_spec 0 e) as [|He]; [done|].
  assert (Hr : 0 ≤ Zpos m mod 2 ^ (- e) < 2 ^ (- e))
    by (apply Z.mod_pos_bound, Z.pow_pos_nonneg; lia).
  change 0 with (-1 + 1) at 1.
  apply binary_normalize_small; [lia|lia|].
  replace (-1 + 53 - e) with (52 + (- e)) by lia.
  rewrite Z.pow_add_r by lia.
  assert (1 ≤ 2 ^ 52) by done.
  assert (Habs : Z.abs (if s then - (Zpos m mod 2 ^ (- e))
                        else Zpos m mod 2 ^ (- e)) < 2 ^ (- e))
    by (destruct s; lia).
  nia.
Qed.

Lemma ONE_small : small 0 ONE.
Proof. simpl. lia. Qed.

Lemma float_rem_one_small (x : spec_float) :
  sf_finite x = true → small 2 (float_rem_one x).
Proof.
  intros Hx. pose proof (fmod_one_small x Hx) as Hmd.
  unfold float_rem_one. destruct (sf_is_zero (fmod_one x)); [done|].
  destruct (SFltb _ _).
  - apply (SFadd_small 0); [lia|done|apply ONE_small].
  - by apply (small_mono 0).
Qed.

End FloatBounds.

(* ================================================================= *)
(** ** The synthetic source never fails *)

Section DemoTotal.

Import PyNum.
Local Open Scope Z_scope.

Lemma clamp_int (lo hi z : Z) :
  lo ≤ hi → ∃ z', Demo.clamp lo hi (PyInt z) = PyInt z' ∧ lo ≤ z' ≤ hi.
Proof.
  intros Hlh. unfold Demo.clamp, py_max, py_min, py_gt. simpl.
  destruct (Z.ltb_spec z hi); simpl.
  - destruct (Z.ltb_spec lo z); eexists; split; try done; lia.
  - destruct (Z.ltb_spec lo hi); eexists; split; try done; lia.
Qed.

(** A float strictly between two integers is finite. *)
Lemma between_finite (lo hi : Z) (f : spec_float) :
  py_lt (PyInt lo) (PyFloat f) = true →
  py_lt (PyFloat f) (PyInt hi) = true →
  sf_finite f = true.
Proof.
  simpl. destruct f as [s|s| |s m e]; simpl; try done.
  by destruct s.
Qed.

Lemma finite_trunc (f : spec_float) :
  sf_finite f = true → is_Some (float_trunc f).
Proof. destruct f; simpl; try done; eauto. Qed.

Lemma speed_ok_int (v : pynum) : Demo.speed_ok v → is_Some (py_int_of v).
Proof.
  destruct v as [z|f]; simpl; [eauto|]. intros [H0 H220].
  eapply finite_trunc, between_finite; [exact H0|exact H220].
Qed.

Lemma speed_ok_float (v : pynum) : Demo.speed_ok v → is_Some (as_float v).
Proof.
  destruct v as [z|f]; simpl; [|eauto]. intros [-> | ->]; vm_compute; eauto.
Qed.

Lemma clamp_speed (x : spec_float) :
  Demo.speed_ok (Demo.clamp 0 220 (PyFloat x)).
Proof.
  unfold Demo.clamp, py_max, py_min, py_gt.
  destruct (py_lt (PyFloat x) (PyInt 220)) eqn:H220.
  - destruct (py_lt (PyInt 0) (PyFloat x)) eqn:H0; [done|]. by left.
  - change (py_lt (PyInt 0) (PyInt 220)) with true. by right.
Qed.

Lemma next_rpm_ok (s : Demo.locals) (r : Z) :
  Demo.rpm s = PyInt r →
  ∃ r', Demo.next_rpm s = Some (PyInt r') ∧ 700 ≤ r' ≤ 6500.
Proof.
  intros Hr. unfold Demo.next_rpm. rewrite Hr.
  destruct (py_lt (Demo.speed s) (PyInt 80)); simpl;
    edestruct clamp_int as (r' & -> & Hb); eauto; lia.
Qed.

Lemma next_torque_ok (s : Demo.locals) (rpm' : pynum) (q : Z) :
  Demo.torque s = PyInt q →
  ∃ q', Demo.next_torque s rpm' = Some (PyInt q').
Proof.
  intros Hq. unfold Demo.next_torque. rewrite Hq.
  destruct (py_lt rpm' (PyInt 3000)); simpl;
    edestruct clamp_int as (q' & -> & Hb); eauto; lia.
Qed.

Lemma next_speed_ok (s : Demo.locals) (rpm' : pynum) :
  Demo.speed_ok (Demo.speed s) →
  ∃ v, Demo.next_speed s rpm' = Some v ∧ Demo.speed_ok v.
Proof.
  intros Hs. unfold Demo.next_speed.
  destruct (speed_ok_float _ Hs) as [f Hf].
  assert (Hadd : ∀ c, py_add (Demo.speed s) (PyFloat c)
                      = Some (PyFloat (SFadd prec emax f c))).
  { intros c. unfold py_add. destruct (Demo.speed s); by rewrite Hf. }
  destruct (py_gt rpm' (PyInt 1200)); rewrite Hadd; simpl;
    eexists; split; try done; apply clamp_speed.
Qed.

Lemma next_gear_ok (s : Demo.locals) (now : spec_float) (speed' : pynum) (g : Z) :
  Demo.gear s = PyInt g →
  ∃ g' ls, Demo.next_gear s now speed' = Some (PyInt g', ls).
Proof.
  intros Hg. unfold Demo.next_gear. simpl. rewrite Hg.
  destruct (_ && _); simpl; [|eauto].
  unfold py_min. simpl. destruct (g + 1 <? 8); eauto.
Qed.

(** *** The temperature *)

Lemma temp_traj_head (n : nat) (v : pynum) : In v (Demo.temp_traj n v).
Proof. destruct n; simpl; auto. Qed.

Lemma temp_traj_closed (n : nat) (v : pynum) :
  Demo.temp_step (Demo.traj_last n v) = Some (Demo.traj_last n v) →
  ∀ x, In x (Demo.temp_traj n v) →
       ∃ x', Demo.temp_step x = Some x' ∧ In x' (Demo.temp_traj n v).
Proof.
  revert v. induction n as [|n IH]; intros v Hlast x Hx.
  - simpl in *. destruct Hx as [<-|[]]. eauto.
  - cbn [Demo.temp_traj Demo.traj_last] in *.
    destruct (Demo.temp_step v) as [v'|] eqn:Hstep.
    + destruct Hx as [<-|Hx].
      * exists v'. split; [done|]. right. apply temp_traj_head.
      * destruct (IH v' Hlast x Hx) as (x' & Hx' & Hin). eauto using in_cons.
    + destruct Hx as [<-|[]]. rewrite Hstep in Hlast. discriminate.
Qed.

Lemma temp_fixpoint :
  Demo.temp_step (Demo.traj_last Demo.TEMP_STEPS (PyInt 70))
  = Some (Demo.traj_last Demo.TEMP_STEPS (PyInt 70)).
Proof. vm_compute. reflexivity. Qed.

Lemma temp_points_ok :
  forallb Demo.temp_point_ok (Demo.temp_traj Demo.TEMP_STEPS (PyInt 70)) = true.
Proof. vm_compute. reflexivity. Qed.

Lemma next_temp_ok (s : Demo.locals) :
  In (Demo.oil_coolant_temperature s)
     (Demo.temp_traj Demo.TEMP_STEPS (PyInt 70)) →
  ∃ v, Demo.next_temp s = Some v
       ∧ In v (Demo.temp_traj Demo.TEMP_STEPS (PyInt 70))
       ∧ is_Some (py_int_of v).
Proof.
  intros Hin.
  destruct (temp_traj_closed _ _ temp_fixpoint _ Hin) as (v & Hstep & Hv).
  exists v. split; [exact Hstep|]. split; [done|].
  pose proof temp_points_ok as Hok. rewrite forallb_forall in Hok.
  specialize (Hok v Hv). unfold Demo.temp_point_ok in Hok.
  destruct (py_int_of v); [eauto|done].
Qed.

(** *** The channels computed from [rpm] *)

Lemma engine_ok_all :
  forallb Demo.engine_ok
    (map (fun k => 700 + Z.of_nat k) (seq 0 (Z.to_nat 5801))) = true.
Proof. vm_compute. reflexivity. Qed.

Lemma engine_ok_range (r : Z) : 700 ≤ r ≤ 6500 → Demo.engine_ok r = true.
Proof.
  intros Hr. pose proof engine_ok_all as Hall.
  rewrite forallb_forall in Hall. apply Hall.
  apply in_map_iff. exists (Z.to_nat (r - 700)). split; [lia|].
  apply in_seq. lia.
Qed.

(** *** The wiggle of the voltages *)

Lemma wiggle_ok (base k : Z) (fk t : spec_float) :
  float_of_int k = Some fk → small 0 fk → sf_finite t = true →
  is_Some (Demo.wiggle base k t).
Proof.
  intros Hk Hfk Ht. unfold Demo.wiggle. cbn [py_sub as_float mbind option_bind].
  assert (Hd : small 4 (SFsub prec emax Demo.F0_5 (float_rem_one t))).
  { apply (SFsub_small 2); [lia| |by apply float_rem_one_small].
    unfold Demo.F0_5. split; [vm_compute; discriminate|by vm_compute]. }
  unfold py_mul. cbn [as_float mbind option_bind]. rewrite Hk.
  cbn [mbind option_bind py_int_of].
  assert (Hp : small 58 (SFmul prec emax fk
                           (SFsub prec emax Demo.F0_5 (float_rem_one t))))
    by (apply (SFmul_small 0 4); [lia|done..]).
  destruct (small_trunc _ _ Hp) as [n ->]. simpl. eauto.
Qed.

Lemma float_of_100 : ∃ fk, float_of_int 100 = Some fk ∧ small 0 fk.
Proof. eexists. split; [vm_compute; reflexivity|]. simpl. lia. Qed.

Lemma float_of_10 : ∃ fk, float_of_int 10 = Some fk ∧ small 0 fk.
Proof. eexists. split; [vm_compute; reflexivity|]. simpl. lia. Qed.

(** *** One iteration *)

Lemma locals_ok_init (t0 : spec_float) : Demo.locals_ok (Demo.init t0).
Proof.
  unfold Demo.locals_ok, Demo.init.
  cbn [Demo.rpm Demo.speed Demo.gear Demo.torque Demo.oil_coolant_temperature].
  split; [eauto|]. split; [by left|]. split; [eauto|]. split; [eauto|].
  apply temp_traj_head.
Qed.

Lemma iter_total (s : Demo.locals) (c : Demo.clock) :
  Demo.locals_ok s → Demo.clock_finite c = true →
  ∃ s' values,
    Demo.iter s c = Some (s', values)
    ∧ Demo.locals_ok s'
    ∧ Demo.i s' = Demo.i s + 1
    ∧ length values = N_FIELDS
    ∧ values !! 0%nat = Some (Demo.i s + 1).
Proof.
  intros ([r Hr] & Hsp & [g Hg] & [q Hq] & Htemp) Hc.
  unfold Demo.clock_finite in Hc.
  apply andb_prop in Hc as [[_ H12]%andb_prop H5].
  destruct (next_rpm_ok s r Hr) as (r' & Hrpm & Hr').
  destruct (next_speed_ok s (PyInt r') Hsp) as (v & Hspeed & Hv).
  destruct (next_gear_ok s (Demo.now c) v g Hg) as (g' & ls & Hgear).
  destruct (next_torque_ok s (PyInt r') q Hq) as (q' & Htorque).
  destruct (next_temp_ok s Htemp) as (tv & Htv & Hin & [ti Hti]).
  pose proof (engine_ok_range r' Hr') as Heng. unfold Demo.engine_ok in Heng.
  destruct (Demo.engine_channels (PyInt r')) as [e|] eqn:He; [|done].
  destruct (Demo.engine_ints e) as [ei|] eqn:Hei; [|done].
  destruct float_of_100 as (f100 & H100 & Hs100).
  destruct float_of_10 as (f10 & H10 & Hs10).
  destruct (wiggle_ok 13800 100 f100 (Demo.t_u12 c) H100 Hs100 H12) as [u12 Hu12].
  destruct (wiggle_ok 5020 10 f10 (Demo.t_u5 c) H10 Hs10 H5) as [u5 Hu5].
  destruct (speed_ok_int v Hv) as [vi Hvi].
  unfold Demo.iter.
  rewrite Hrpm. cbn [mbind option_bind]. rewrite Hspeed. cbn [mbind option_bind].
  rewrite Hgear. cbn [mbind option_bind]. rewrite Htorque. cbn [mbind option_bind].
  rewrite Htv. cbn [mbind option_bind]. rewrite He. cbn [mbind option_bind].
  rewrite Hu12. cbn [mbind option_bind]. rewrite Hu5. cbn [mbind option_bind].
  unfold Demo.row_values. cbn [py_int_of fst snd mbind option_bind].
  rewrite Hvi. cbn [mbind option_bind]. rewrite Hti. cbn [mbind option_bind].
  rewrite Hei. cbn [mbind option_bind].
  eexists _, _. split; [reflexivity|].
  split; [|by repeat split].
  unfold Demo.locals_ok.
  cbn [Demo.rpm Demo.speed Demo.gear Demo.torque Demo.oil_coolant_temperature
       fst snd].
  split; [eauto|]. split; [done|]. split; [eauto|]. split; [eauto|]. done.
Qed.

(** *** Any number of iterations *)

Lemma run_total (clocks : list Demo.clock) (s : Demo.locals) :
  Demo.locals_ok s → forallb Demo.clock_finite clocks = true →
  ∃ s' rows,
    Demo.run s clocks = Some (s', rows)
    ∧ Demo.locals_ok s'
    ∧ length rows = length clocks
    ∧ ∀ (k : nat) (row : list Z),
        rows !! k = Some row →
        length row = N_FIELDS
        ∧ row !! 0%nat = Some (Demo.i s + 1 + Z.of_nat k).
Proof.
  revert s. induction clocks as [|c clocks IH]; intros s Hs Hfin.
  - exists s, []. split; [done|]. split; [done|]. split; [done|].
    intros k row Hk. done.
  - cbn [forallb] in Hfin. apply andb_prop in Hfin as [Hc Hfin].
    destruct (iter_total s c Hs Hc) as (s1 & values & Hiter & Hs1 & Hi & Hlen & Hhd).
    destruct (IH s1 Hs1 Hfin) as (s' & rows & Hrun & Hs' & Hrows & Hall).
    exists s', (values :: rows). cbn [Demo.run].
    rewrite Hiter. cbn [mbind option_bind fst snd]. rewrite Hrun.
    cbn [mbind option_bind fst snd length].
    split; [done|]. split; [done|]. split; [by rewrite Hrows|].
    intros [|k] row Hk.
    + injection Hk as <-. split; [done|]. rewrite Hhd. f_equal. lia.
    + destruct (Hall k row Hk) as [Hl Hr]. split; [done|].
      rewrite Hr, Hi. f_equal. lia.
Qed.

(** The thread of [_run_demo] in the running program. *)
Lemma demo_world_run (clocks : list Demo.clock) (w : world)
    (s' : Demo.locals) (rows : list (list Z)) :
  demo w = true → alive w = true → stop_flag w = false →
  Demo.run (demo_locals w) clocks = Some (s', rows) →
  alive (run w (map DemoIter clocks)) = true
  ∧ demo_locals (run w (map DemoIter clocks)) = s'
  ∧ latest_row (run w (map DemoIter clocks))
    = match last rows with
      | Some row => Some (dict_zip FIELDS row)
      | None => latest_row w
      end.
Proof.
  revert w rows. induction clocks as [|c clocks IH]; intros w rows Hd Ha Hst Hrun.
  - injection Hrun as <- <-. done.
  - cbn [Demo.run] in Hrun.
    destruct (Demo.iter (demo_locals w) c) as [[s1 values]|] eqn:Hiter;
      [|done].
    cbn [mbind option_bind fst snd] in Hrun.
    destruct (Demo.run s1 clocks) as [[s2 rows2]|] eqn:Hrun2; [|done].
    cbn [mbind option_bind fst snd] in Hrun. injection Hrun as <- <-.
    cbn [map run fold_left]. fold (run (step w (DemoIter c)) (map DemoIter clocks)).
    assert (Hstep : step w (DemoIter c)
                    = store_latest (dict_zip FIELDS values)
                        (set_demo_locals s1 w)).
    { unfold step, loop_iteration, run_demo_body.
      by rewrite Hd, Ha, Hst, Hiter. }
    rewrite Hstep.
    destruct (IH (store_latest (dict_zip FIELDS values) (set_demo_locals s1 w))
                rows2) as (Halive & Hloc & Hrow); try done.
    split; [done|]. split; [done|]. rewrite Hrow.
    destruct rows2 as [|r2 rows2]; [done|].
    change (last (values :: r2 :: rows2)) with (last (r2 :: rows2)).
    destruct (last (r2 :: rows2)) eqn:Hlast; [done|].
    by apply last_None in Hlast.
Qed.

End DemoTotal.

(** C7: the synthetic source cannot fail and counts without gaps:
    whatever finite values the clock returns, and for any number of
    iterations, every iteration of the loop of [_run_demo] completes and
    emits a row of 17 integers; the row of the [k]-th iteration has
    [log_index = k], starting from 1; in the running program the thread
    stays alive and the cache holds the row of the last iteration. *)
Theorem synthetic_source_log_index (t0 : spec_float)
    (clocks : list Demo.clock) (no_log : bool) (max_points : Z) (w0 : world) :
  forallb Demo.clock_finite clocks = true →
  main_init true no_log max_points t0 = Some w0 →
  ∃ (s : Demo.locals) (rows : list (list Z)),
    Demo.run (Demo.init t0) clocks = Some (s, rows)
    ∧ length rows = length clocks
    ∧ (∀ (k : nat) (row : list Z),
         rows !! k = Some row →
         length row = 17
         ∧ dict_zip FIELDS row !! "log_index"%string = Some (Z.of_nat k + 1)%Z)
    ∧ alive (run w0 (map DemoIter clocks)) = true
    ∧ (clocks ≠ [] →
       ∃ row, latest_row (run w0 (map DemoIter clocks)) = Some row
              ∧ row !! "log_index"%string = Some (Z.of_nat (length clocks))).
Proof.
  intros Hfin Hinit.
  destruct (run_total clocks (Demo.init t0) (locals_ok_init t0) Hfin)
    as (s & rows & Hrun & _ & Hlen & Hrows).
  assert (Hidx : ∀ (k : nat) (row : list Z),
    rows !! k = Some row →
    length row = 17
    ∧ dict_zip FIELDS row !! "log_index"%string = Some (Z.of_nat k + 1)%Z).
  { intros k row Hk. destruct (Hrows k row Hk) as [Hl Hhd]. split; [done|].
    rewrite (dict_zip_lookup FIELDS row 0 "log_index") by
      (done || apply FIELDS_NoDup).
    rewrite Hhd. f_equal. simpl. lia. }
  exists s, rows. split; [done|]. split; [done|]. split; [done|].
  unfold main_init in Hinit.
  destruct (deque_new max_points) as [d|]; [|done].
  cbn [mbind option_bind] in Hinit. injection Hinit as <-.
  match goal with |- context [run ?w _] => set (w0 := w) end.
  destruct (demo_world_run clocks w0 s rows eq_refl eq_refl eq_refl Hrun)
    as (Halive & _ & Hrow).
  split; [done|]. intros Hne.
  destruct (last rows) as [row|] eqn:Hlast.
  - exists (dict_zip FIELDS row). split; [done|].
    apply last_Some in Hlast as [rows' ->].
    rewrite length_app in Hlen. cbn [length] in Hlen.
    destruct (Hidx (length rows') row) as [_ ->].
    { by rewrite lookup_app_r, Nat.sub_diag by lia. }
    f_equal. lia.
  - apply last_None in Hlast. subst rows. by destruct clocks.
Qed.

Lemma synthetic_source_log_index_witness :
  ∃ (s : Demo.locals) (rows : list (list Z)),
    Demo.run (Demo.init DEMO_T0) DEMO_CLOCKS = Some (s, rows)
    ∧ length rows = 3
    ∧ alive (run W_DEMO (map DemoIter DEMO_CLOCKS)) = true.
Proof.
  destruct (synthetic_source_log_index DEMO_T0 DEMO_CLOCKS true 1200 W_DEMO
              eq_refl eq_refl) as (s & rows & Hrun & Hlen & _ & Halive & _).
  exists s, rows. split; [exact Hrun|]. split; [exact Hlen|exact Halive].
Defined.

(* ================================================================= *)
(** ** Every row of the cache has the 17 keys *)


Lemma W_DEMO_init : main_init true true DEFAULT_MAX_POINTS DEMO_T0 = Some W_DEMO.
Proof. reflexivity. Qed.

Lemma dict_zip_complete (values : list Z) :
  length values = N_FIELDS → complete (dict_zip FIELDS values).
Proof.
  intros Hlen k Hk. apply list_elem_of_lookup in Hk as [i Hi].
  rewrite (dict_zip_lookup FIELDS values i k FIELDS_NoDup Hlen Hi).
  apply lookup_lt_is_Some_2. rewrite Hlen. by eapply lookup_lt_Some.
Qed.

Lemma parse_line_complete (line : list byte) (row : gmap string Z) :
  parse_line line = Accepted row → complete row.
Proof.
  intros (Hlen & values & Hints & ->)%parse_line_accepted.
  apply dict_zip_complete. unfold ints_of in Hints.
  apply length_mapM in Hints. congruence.
Qed.

Lemma iter_length (s s' : Demo.locals) (c : Demo.clock) (values : list Z) :
  Demo.iter s c = Some (s', values) → length values = N_FIELDS.
Proof.
  unfold Demo.iter. intros Hiter.
  destruct (Demo.next_rpm s) as [rpm'|]; cbn [mbind option_bind] in Hiter; [|discriminate].
  destruct (Demo.next_speed s rpm') as [speed'|]; cbn [mbind option_bind] in Hiter; [|discriminate].
  destruct (Demo.next_gear s (Demo.now c) speed') as [gl|]; cbn [mbind option_bind] in Hiter; [|discriminate].
  destruct (Demo.next_torque s rpm') as [torque'|]; cbn [mbind option_bind] in Hiter; [|discriminate].
  destruct (Demo.next_temp s) as [temp'|]; cbn [mbind option_bind] in Hiter; [|discriminate].
  destruct (Demo.engine_channels rpm') as [e|]; cbn [mbind option_bind] in Hiter; [|discriminate].
  destruct (Demo.wiggle 13800 100 (Demo.t_u12 c)) as [u12|]; cbn [mbind option_bind] in Hiter; [|discriminate].
  destruct (Demo.wiggle 5020 10 (Demo.t_u5 c)) as [u5|]; cbn [mbind option_bind] in Hiter; [|discriminate].
  unfold Demo.row_values in Hiter.
  destruct (PyNum.py_int_of rpm'); cbn [mbind option_bind] in Hiter; [|discriminate].
  destruct (PyNum.py_int_of speed'); cbn [mbind option_bind] in Hiter; [|discriminate].
  destruct (PyNum.py_int_of gl.1); cbn [mbind option_bind] in Hiter; [|discriminate].
  destruct (PyNum.py_int_of torque'); cbn [mbind option_bind] in Hiter; [|discriminate].
  destruct (PyNum.py_int_of temp'); cbn [mbind option_bind] in Hiter; [|discriminate].
  destruct (Demo.engine_ints e); cbn [mbind option_bind] in Hiter; [|discriminate].
  by injection Hiter as _ <-.
Qed.

Lemma row_complete_step (w : world) (e : event) :
  (∀ row, latest_row w = Some row → complete row) →
  ∀ row, latest_row (step w e) = Some row → complete row.
Proof.
  intros Hw row. step_cases w e; try (by apply Hw).
  - intros [= <-]. by eapply parse_line_complete.
  - intros [= <-]. apply dict_zip_complete.
    exact (iter_length _ _ _ _ Hiter).
  - rewrite Hrow. apply Hw.
Qed.


(* ================================================================= *)
(** ** What the timer callback sees *)


Lemma samples_app (evs1 evs2 : list event) (w : world) :
  samples w (evs1 ++ evs2) = samples w evs1 ++ samples (run w evs1) evs2.
Proof.
  revert w. induction evs1 as [|e evs1 IH]; intros w; [done|].
  cbn [app samples]. rewrite IH, <- app_assoc. done.
Qed.


Lemma run_writer_samples (evs : list event) (w : world) :
  writer (run w evs)
  = (fun rows => rows ++ map csv_row_of (samples w evs)) <$> writer w.
Proof.
  revert w. induction evs as [|e evs IH]; intros w.
  - simpl. destruct (writer w); simpl; [|done]. by rewrite app_nil_r.
  - cbn [run fold_left samples]. fold (run (step w e) evs). rewrite IH.
    destruct e as [line|se|c|now|];
      try (rewrite step_writer by done; destruct (latest_row w); done).
    cbn [step]. unfold update, get_latest.
    destruct (latest_row w) as [row|]; [|done]. cbn [writer].
    destruct (writer w) as [rows|]; [|done]. simpl.
    by rewrite <- app_assoc.
Qed.

Lemma run_history_samples (evs : list event) (w : world) :
  history (run w evs)
  = fold_left (fun h s => append_history s.2 h) (samples w evs) (history w).
Proof.
  revert w. induction evs as [|e evs IH]; intros w; [done|].
  cbn [run fold_left samples]. fold (run (step w e) evs). rewrite IH.
  step_cases w e; done.
Qed.

Lemma samples_complete (evs : list event) (w : world) :
  (∀ row, latest_row w = Some row → complete row) →
  Forall (fun s => complete s.2) (samples w evs).
Proof.
  revert w. induction evs as [|e evs IH]; intros w Hw; [constructor|].
  cbn [samples]. apply Forall_app. split.
  - destruct e; try constructor.
    destruct (latest_row w) as [row|] eqn:Hrow; constructor; [|constructor].
    by apply Hw.
  - apply IH. by apply row_complete_step.
Qed.

Lemma append_history_lookup (row : gmap string Z) (hist : list (deque Z))
    (i : nat) (k : string) (d : deque Z) :
  FIELDS !! i = Some k → hist !! i = Some d →
  append_history row hist !! i = Some (deque_append d (row !!! k)).
Proof.
  intros Hk Hd. unfold append_history. rewrite lookup_zip_with, Hk. simpl.
  by rewrite Hd.
Qed.

Lemma fold_history_lookup (rows : list (Z * gmap string Z))
    (hist : list (deque Z)) (i : nat) (k : string) (d : deque Z) :
  FIELDS !! i = Some k → hist !! i = Some d →
  fold_left (fun h s => append_history s.2 h) rows hist !! i
  = Some (fold_left deque_append (map (fun s => s.2 !!! k) rows) d).
Proof.
  intros Hk. revert hist d. induction rows as [|s rows IH]; intros hist d Hd.
  - done.
  - simpl. apply IH. by apply append_history_lookup.
Qed.

Lemma complete_lookup_total (row : gmap string Z) (k : string) :
  complete row → k ∈ FIELDS → row !! k = Some (row !!! k).
Proof.
  intros Hc Hk. destruct (Hc k Hk) as [v Hv].
  by rewrite (lookup_total_correct _ _ _ Hv).
Qed.

Lemma main_init_inv (demo_mode no_log : bool) (max_points : Z)
    (t0 : spec_float) (w0 : world) :
  main_init demo_mode no_log max_points t0 = Some w0 →
  (0 ≤ max_points)%Z
  ∧ w0 = World demo_mode false None (negb demo_mode) true (Demo.init t0) []
               (if no_log then None else Some [])
               (replicate N_FIELDS (Deque (Z.to_nat max_points) [])) None.
Proof.
  unfold main_init, deque_new. destruct (Z.ltb_spec max_points 0); [done|].
  simpl. intros [= <-]. done.
Qed.

(* ================================================================= *)
(** ** The CSV file and the plot follow the samples *)

(** X1: with logging the CSV file holds one data row per sample, in the
    order of the ticks, under the time of the tick, and no cell of a
    data row is empty; with [--no-log] there is no file at any time. *)
Theorem csv_rows_are_the_samples (demo_mode no_log : bool) (max_points : Z)
    (t0 : spec_float) (w0 : world) (evs : list event) :
  main_init demo_mode no_log max_points t0 = Some w0 →
  writer (run w0 evs)
  = (if no_log then None else Some (map csv_row_of (samples w0 evs)))
  ∧ Forall (fun s => cells (csv_row_of s) = map (fun k => Some (s.2 !!! k)) FIELDS)
           (samples w0 evs).
Proof.
  intros [_ ->]%main_init_inv. split.
  - rewrite run_writer_samples. by destruct no_log.
  - eapply Forall_impl; [apply samples_complete; done|].
    intros [now row] Hc. cbn [csv_row_of cells fst snd].
    unfold csv_cells. apply map_ext_in. intros k Hk.
    apply complete_lookup_total; [done|]. by apply list_elem_of_In.
Qed.

Lemma csv_rows_are_the_samples_witness :
  writer (run W_SERIAL (E2E_SLOW 5 6))
  = Some (map csv_row_of (samples W_SERIAL (E2E_SLOW 5 6))).
Proof.
  exact (proj1 (csv_rows_are_the_samples false false DEFAULT_MAX_POINTS
                  (S754_zero false) W_SERIAL (E2E_SLOW 5 6) eq_refl)).
Defined.

(** X2: the deque of each channel holds the values of that channel in
    the last [max_points] samples, oldest first: the 17 deques always
    have the same length, the number of samples capped at [max_points],
    and stay aligned. *)
Theorem history_holds_recent_samples (demo_mode no_log : bool) (max_points : Z)
    (t0 : spec_float) (w0 : world) (evs : list event) (i : nat) (k : string) :
  main_init demo_mode no_log max_points t0 = Some w0 →
  FIELDS !! i = Some k →
  ∃ d, history (run w0 evs) !! i = Some d
       ∧ length (dq_items d)
         = Nat.min (length (samples w0 evs)) (Z.to_nat max_points)
       ∧ map Some (dq_items d)
         = drop (length (samples w0 evs) - Z.to_nat max_points)
                (map (fun s => s.2 !! k) (samples w0 evs)).
Proof.
  intros [_ ->]%main_init_inv Hk.
  set (w0 := World _ _ _ _ _ _ _ _ _ _).
  set (n := Z.to_nat max_points).
  exists (fold_left deque_append (map (fun s => s.2 !!! k) (samples w0 evs))
            (Deque n [])).
  split; [|split].
  - rewrite run_history_samples. apply fold_history_lookup; [done|].
    cbn [history w0]. apply lookup_replicate_2.
    by eapply lookup_lt_Some.
  - rewrite fold_append_last, length_drop, length_map. lia.
  - rewrite fold_append_last, length_map, <- skipn_map, map_map.
    f_equal. apply map_ext_in. intros [now row] Hin. cbn [snd].
    symmetry. apply complete_lookup_total; [|by eapply list_elem_of_lookup_2].
    assert (Hall : Forall (fun s => complete s.2) (samples w0 evs))
      by (by apply samples_complete).
    rewrite Forall_forall in Hall. apply (Hall (now, row)).
    by apply list_elem_of_In.
Qed.

Lemma history_holds_recent_samples_witness :
  ∃ d, history (run W_SERIAL (E2E_PACED 5 6)) !! 1 = Some d
       ∧ length (dq_items d)
         = Nat.min (length (samples W_SERIAL (E2E_PACED 5 6))) 1200
       ∧ map Some (dq_items d)
         = drop (length (samples W_SERIAL (E2E_PACED 5 6)) - 1200)
                (map (fun s => s.2 !! "engine_rpm"%string)
                     (samples W_SERIAL (E2E_PACED 5 6))).
Proof.
  exact (history_holds_recent_samples false false DEFAULT_MAX_POINTS
           (S754_zero false) W_SERIAL (E2E_PACED 5 6) 1 "engine_rpm"
           eq_refl eq_refl).
Defined.

(* ================================================================= *)
(** ** The end of the reader thread *)

Lemma halted_step (w : world) (e : event) :
  halted w →
  halted (step w e)
  ∧ latest_row (step w e) = latest_row w
  ∧ console (step w e) = console w
  ∧ demo_locals (step w e) = demo_locals w.
Proof.
  unfold halted. intros Hh.
  destruct e as [line|se|c|now|]; cbn [step]; unfold loop_iteration, update,
    get_latest, stop.
  1-3: destruct (demo w) eqn:Hd, (alive w) eqn:Ha, (stop_flag w) eqn:Hs;
    simpl; rewrite ?Ha, ?Hs; auto; by destruct Hh.
  - destruct (latest_row w) eqn:Hrow; simpl; auto.
  - simpl. auto.
Qed.

Lemma halted_run (evs : list event) (w : world) :
  halted w →
  halted (run w evs)
  ∧ latest_row (run w evs) = latest_row w
  ∧ console (run w evs) = console w
  ∧ demo_locals (run w evs) = demo_locals w
  ∧ Forall (fun s => latest_row w = Some s.2) (samples w evs).
Proof.
  revert w. induction evs as [|e evs IH]; intros w Hh.
  - repeat split; done.
  - destruct (halted_step w e Hh) as (Hh' & Hrow & Hcon & Hloc).
    destruct (IH _ Hh') as (Hh2 & Hrow2 & Hcon2 & Hloc2 & Hs).
    cbn [run fold_left samples]. fold (run (step w e) evs).
    rewrite Hrow2, Hcon2, Hloc2.
    split; [done|]. split; [done|]. split; [done|]. split; [done|].
    apply Forall_app. split.
    + destruct e; try constructor.
      destruct (latest_row w) as [row|]; constructor; [done|constructor].
    + by rewrite <- Hrow.
Qed.



(** X4: a failed read ends the reader for good: the error is printed
    once, the thread leaves its loop, and no later event of the reader
    stores a row or prints anything (there is no reconnection). The
    timer goes on: every later tick samples the last row read before the
    failure. *)
Theorem read_failure_ends_reader (w : world) (se : bool) (evs : list event) :
  reading w →
  let w' := run (step w (ReadFailed se)) evs in
  alive w' = false
  ∧ latest_row w' = latest_row w
  ∧ console w' = console w ++ [if se then ErrorSerial else ErrorUnexpected]
  ∧ Forall (fun s => latest_row w = Some s.2)
           (samples (step w (ReadFailed se)) evs).
Proof.
  intros (Hd & Ha & Hs) w'.
  assert (Hstep : step w (ReadFailed se)
                  = run_read_failed se w).
  { simpl. unfold loop_iteration. by rewrite Hd, Ha, Hs. }
  assert (Hdead : alive (step w (ReadFailed se)) = false) by (by rewrite Hstep).
  destruct (halted_run evs (step w (ReadFailed se))) as (_ & Hrow & Hcon & _ & Hsm);
    [by left|].
  assert (Ha' : alive w' = false).
  { unfold w'. apply (run_invariant (fun w1 => alive w1 = false)); [|done].
    intros w1 e Hw1.
    destruct e as [line|se1|c|now|]; cbn [step]; unfold loop_iteration, update,
      get_latest, stop.
    1-3: destruct (demo w1); rewrite ?Hw1; simpl; auto.
    - destruct (latest_row w1); simpl; auto.
    - simpl. auto. }
  unfold w' in *. rewrite Hrow, Hcon. rewrite Hstep in *.
  split; [done|]. split; [done|]. split; [done|]. exact Hsm.
Qed.

Lemma read_failure_ends_reader_witness :
  console (run (step W_SERIAL (ReadFailed true)) [ReadLine LINE1; Update 5])
  = [ErrorSerial]
  ∧ latest_row (run (step W_SERIAL (ReadFailed true)) [ReadLine LINE1; Update 5])
    = None.
Proof.
  pose proof (read_failure_ends_reader W_SERIAL true [ReadLine LINE1; Update 5]
                (conj eq_refl (conj eq_refl eq_refl))) as (_ & Hrow & Hcon & _).
  exact (conj Hcon Hrow).
Defined.

(* ================================================================= *)
(** ** From the wire to the file and to the plot *)


Lemma csv_cells_dict_zip (values : list Z) :
  length values = N_FIELDS →
  csv_cells (dict_zip FIELDS values) = map Some values.
Proof.
  intros Hlen. unfold csv_cells. apply list_eq. intros i.
  rewrite !list_lookup_fmap.
  destruct (FIELDS !! i) as [k|] eqn:Hk; simpl.
  - rewrite (dict_zip_lookup FIELDS values i k FIELDS_NoDup Hlen Hk).
    destruct (lookup_lt_is_Some_2 values i) as [v Hv];
      [rewrite Hlen; by eapply lookup_lt_Some|].
    by rewrite Hv.
  - apply lookup_ge_None in Hk. rewrite lookup_ge_None_2; [done|].
    rewrite Hlen. exact Hk.
Qed.

Lemma lookup_total_dict_zip (values : list Z) (i : nat) (k : string) (v : Z) :
  length values = N_FIELDS → FIELDS !! i = Some k → values !! i = Some v →
  dict_zip FIELDS values !!! k = v.
Proof.
  intros Hlen Hk Hv. apply lookup_total_correct.
  by rewrite (dict_zip_lookup FIELDS values i k FIELDS_NoDup Hlen Hk).
Qed.



(* ================================================================= *)
(** ** The fault overlay *)

Lemma deque_append_last (d : deque Z) (v : Z) :
  last (dq_items (deque_append d v))
  = if (dq_maxlen d =? 0)%nat && (length (dq_items d) =? 0)%nat
    then None else Some v.
Proof.
  unfold deque_append. cbn [dq_items]. rewrite length_app. cbn [length].
  destruct (dq_items d) as [|x xs] eqn:Hitems; cbn [length app].
  - destruct (dq_maxlen d) as [|n]; [done|].
    cbn [Nat.eqb andb]. destruct (Nat.ltb_spec (S n) (0 + 1)); [lia|done].
  - rewrite andb_false_r. destruct (_ <? _)%nat; cbn [tail].
    + apply last_snoc.
    + rewrite app_comm_cons. apply last_snoc.
Qed.

Lemma fault_word_of_update (row : gmap string Z) (hist : list (deque Z))
    (d : deque Z) :
  length hist = N_FIELDS → hist !! 16%nat = Some d →
  (h ← last (append_history row hist); last (dq_items h))
  = if (dq_maxlen d =? 0)%nat && (length (dq_items d) =? 0)%nat
    then None else Some (row !!! "faultword1"%string).
Proof.
  intros Hlen Hd. rewrite last_lookup, (append_history_length _ _ Hlen).
  cbn [N_FIELDS FIELDS length pred].
  rewrite (append_history_lookup row hist 16 "faultword1" d eq_refl Hd).
  cbn [mbind option_bind]. apply deque_append_last.
Qed.



(* ================================================================= *)
(** ** The ranges of the synthetic channels *)


Section DemoRanges.

Import PyNum.
Local Open Scope Z_scope.

Lemma between_spec (lo hi z : Z) : between lo hi z = true ↔ lo ≤ z ≤ hi.
Proof. unfold between. rewrite andb_true_iff, !Z.leb_le. done. Qed.

Lemma engine_in_range_all :
  forallb engine_in_range
    (map (fun k => 700 + Z.of_nat k) (seq 0 (Z.to_nat 5801))) = true.
Proof. vm_compute. reflexivity. Qed.

Lemma engine_in_range_ok (r : Z) : 700 ≤ r ≤ 6500 → engine_in_range r = true.
Proof.
  intros Hr. pose proof engine_in_range_all as Hall.
  rewrite forallb_forall in Hall. apply Hall.
  apply in_map_iff. exists (Z.to_nat (r - 700)). split; [lia|].
  apply in_seq. lia.
Qed.

Lemma temp_in_range_all :
  forallb temp_in_range (Demo.temp_traj Demo.TEMP_STEPS (PyInt 70)) = true.
Proof. vm_compute. reflexivity. Qed.

(** [int] of a float strictly between two integers. *)
Lemma trunc_between (hi : Z) (f : spec_float) (z : Z) :
  py_lt (PyInt 0) (PyFloat f) = true →
  py_lt (PyFloat f) (PyInt hi) = true →
  float_trunc f = Some z → 0 ≤ z ≤ hi.
Proof.
  destruct f as [s|s| |s m e]; try (simpl; done).
  unfold py_lt, cmp_int_float, float_trunc.
  assert (Hpow : ∀ k, 0 ≤ k → 0 < 2 ^ k) by (intros k Hk; by apply Z.pow_pos_nonneg).
  destruct s; destruct (Z.leb_spec 0 e) as [He|He].
  - destruct (Z.compare_spec 0 (Z.neg m * 2 ^ e)); try done.
    specialize (Hpow e He). nia.
  - by destruct (Z.compare_spec (0 * 2 ^ (- e)) (Z.neg m)).
  - intros _ Hhi [= <-].
    destruct (Z.compare_spec hi (Z.pos m * 2 ^ e)); try done.
    specialize (Hpow e He). nia.
  - intros _ Hhi [= <-].
    destruct (Z.compare_spec (hi * 2 ^ (- e)) (Z.pos m)); try done.
    specialize (Hpow (- e) ltac:(lia)).
    split; [apply Z.div_pos; lia|].
    apply Z.lt_le_incl, Z.div_lt_upper_bound; lia.
Qed.

Lemma speed_ok_range (v : pynum) (z : Z) :
  Demo.speed_ok v → py_int_of v = Some z → 0 ≤ z ≤ 220.
Proof.
  destruct v as [x|f]; simpl.
  - intros [-> | ->] [= <-]; lia.
  - intros [H0 H220]. by apply trunc_between.
Qed.

Lemma next_gear_range (s : Demo.locals) (now : spec_float) (speed' : pynum)
    (g : Z) :
  Demo.gear s = PyInt g → 1 ≤ g ≤ 8 →
  ∃ g' ls, Demo.next_gear s now speed' = Some (PyInt g', ls) ∧ g ≤ g' ≤ 8.
Proof.
  intros Hg Hr. unfold Demo.next_gear. simpl. rewrite Hg.
  destruct (_ && _); simpl; [|eexists _, _; split; [done|lia]].
  unfold py_min. simpl. destruct (Z.ltb_spec (g + 1) 8);
    eexists _, _; (split; [done|lia]).
Qed.

Lemma next_torque_range (s : Demo.locals) (rpm' : pynum) (q : Z) :
  Demo.torque s = PyInt q →
  ∃ q', Demo.next_torque s rpm' = Some (PyInt q') ∧ 0 ≤ q' ≤ 450.
Proof.
  intros Hq. unfold Demo.next_torque. rewrite Hq.
  destruct (py_lt rpm' (PyInt 3000)); simpl;
    edestruct clamp_int as (q' & -> & Hb); eauto; lia.
Qed.

Lemma next_temp_range (s : Demo.locals) :
  In (Demo.oil_coolant_temperature s)
     (Demo.temp_traj Demo.TEMP_STEPS (PyInt 70)) →
  ∃ v z, Demo.next_temp s = Some v
         ∧ In v (Demo.temp_traj Demo.TEMP_STEPS (PyInt 70))
         ∧ py_int_of v = Some z ∧ 70 ≤ z ≤ 110.
Proof.
  intros Hin.
  destruct (temp_traj_closed _ _ temp_fixpoint _ Hin) as (v & Hstep & Hv).
  pose proof temp_in_range_all as Hok. rewrite forallb_forall in Hok.
  specialize (Hok v Hv). unfold temp_in_range in Hok.
  destruct (py_int_of v) as [z|] eqn:Hz; [|done].
  apply between_spec in Hok. by exists v, z.
Qed.

(** One iteration keeps the locals and the row in their ranges. *)
Lemma iter_in_range (s s' : Demo.locals) (c : Demo.clock) (values : list Z) :
  locals_in_range s → Demo.iter s c = Some (s', values) →
  locals_in_range s' ∧ demo_row_ok values = true
  ∧ values !! 0%nat = Some (Demo.i s + 1)
  ∧ Demo.i s' = Demo.i s + 1.
Proof.
  intros (Hi & (r & Hr & Hrr) & Hsp & (g & Hg & Hgr) & (q & Hq & Hqr) & Htemp).
  destruct (next_rpm_ok s r Hr) as (r' & Hrpm & Hr').
  destruct (next_speed_ok s (PyInt r') Hsp) as (v & Hspeed & Hv).
  destruct (next_gear_range s (Demo.now c) v g Hg Hgr) as (g' & ls & Hgear & Hg').
  destruct (next_torque_range s (PyInt r') q Hq) as (q' & Htorque & Hq').
  destruct (next_temp_range s Htemp) as (tv & ti & Htv & Hin & Hti & Htr).
  pose proof (engine_in_range_ok r' Hr') as Heng. unfold engine_in_range in Heng.
  destruct (Demo.engine_channels (PyInt r')) as [e|] eqn:He; [|done].
  destruct (Demo.engine_ints e) as [[[[egt1 egt2] iat] oil]|] eqn:Hei; [|done].
  unfold Demo.iter.
  rewrite Hrpm. cbn [mbind option_bind]. rewrite Hspeed. cbn [mbind option_bind].
  rewrite Hgear. cbn [mbind option_bind]. rewrite Htorque. cbn [mbind option_bind].
  rewrite Htv. cbn [mbind option_bind]. rewrite He. cbn [mbind option_bind].
  destruct (Demo.wiggle 13800 100 (Demo.t_u12 c)) as [u12|];
    cbn [mbind option_bind]; [|done].
  destruct (Demo.wiggle 5020 10 (Demo.t_u5 c)) as [u5|];
    cbn [mbind option_bind]; [|done].
  unfold Demo.row_values. cbn [py_int_of fst snd mbind option_bind].
  destruct (py_int_of v) as [vi|] eqn:Hvi; cbn [mbind option_bind]; [|done].
  rewrite Hti. cbn [mbind option_bind]. rewrite Hei. cbn [mbind option_bind fst snd].
  intros [= <- <-].
  pose proof (speed_ok_range v vi Hv Hvi) as Hvr.
  split.
  { unfold locals_in_range.
    cbn [Demo.i Demo.rpm Demo.speed Demo.gear Demo.torque
         Demo.oil_coolant_temperature].
    split; [lia|]. split; [eauto|]. split; [done|].
    split; [exists g'; split; [done|lia]|]. split; [eauto|]. done. }
  split; [|done].
  unfold demo_row_ok, between in *.
  rewrite !andb_true_iff, !Z.leb_le, !Z.eqb_eq in Heng.
  rewrite !andb_true_iff, !Z.leb_le, !Z.eqb_eq. lia.
Qed.

Lemma locals_in_range_init (t0 : spec_float) : locals_in_range (Demo.init t0).
Proof.
  unfold locals_in_range, Demo.init.
  cbn [Demo.i Demo.rpm Demo.speed Demo.gear Demo.torque
       Demo.oil_coolant_temperature].
  split; [lia|]. split; [exists 800; split; [done|lia]|]. split; [by left|].
  split; [exists 1; split; [done|lia]|].
  split; [exists 50; split; [done|lia]|].
  apply temp_traj_head.
Qed.

End DemoRanges.


Lemma demo_row_ok_inv (values : list Z) :
  demo_row_ok values = true →
  length values = N_FIELDS ∧ values !! 16%nat = Some 0%Z.
Proof.
  unfold demo_row_ok.
  do 17 (destruct values as [|? values]; [done|]).
  destruct values; [|done]. cbv iota beta.
  intros [_ ->%Z.eqb_eq]%andb_prop. done.
Qed.

Lemma demo_world_ok_step (w : world) (e : event) :
  demo_world_ok w → demo_world_ok (step w e).
Proof.
  intros Hw. pose proof Hw as (Hd & Hloc & Hrow & Hlen & Hft).
  destruct e as [line|se|c|now|]; cbn [step]; rewrite ?Hd.
  - exact Hw.
  - exact Hw.
  - unfold loop_iteration.
    destruct (alive w); cbn [negb]; cbv iota; [|exact Hw].
    destruct (stop_flag w); [exact Hw|].
    unfold run_demo_body.
    destruct (Demo.iter (demo_locals w) c) as [[s' values]|] eqn:Hiter;
      [|exact Hw].
    destruct (iter_in_range _ _ _ _ Hloc Hiter) as (Hloc' & Hok & _).
    unfold demo_world_ok, store_latest.
    cbn [set_latest set_demo_locals demo demo_locals latest_row history
         fault_text].
    split; [done|]. split; [done|]. split; [|done].
    intros row [= <-]. eauto.
  - unfold update, get_latest.
    destruct (latest_row w) as [row|] eqn:Hr; cbv beta iota; [|exact Hw].
    unfold demo_world_ok. cbn [demo demo_locals latest_row history fault_text].
    split; [done|]. split; [done|]. split; [exact Hrow|].
    split; [by apply append_history_length|].
    destruct (Hrow row eq_refl) as (values & -> & Hok).
    destruct (demo_row_ok_inv values Hok) as [Hl H16].
    destruct (lookup_lt_is_Some_2 (history w) 16) as [d Hd16];
      [rewrite Hlen; unfold N_FIELDS, FIELDS; cbn [length]; lia|].
    rewrite (fault_word_of_update _ _ d Hlen Hd16).
    rewrite (lookup_total_dict_zip values 16 "faultword1" 0 Hl eq_refl H16).
    by destruct (_ && _).
  - exact Hw.
Qed.

Lemma demo_world_ok_init (no_log : bool) (max_points : Z) (t0 : spec_float)
    (w0 : world) :
  main_init true no_log max_points t0 = Some w0 → demo_world_ok w0.
Proof.
  intros [_ ->]%main_init_inv. split; [done|].
  split; [apply locals_in_range_init|]. split; [done|]. split; [|done].
  cbn [history]. apply length_replicate.
Qed.

(** X7: every row of the synthetic source is plausible: whatever the
    clock returns and however the threads interleave, the cells that a
    tick would write for the row of the cache lie in the ranges of
    [demo_row_ok]: [engine_rpm] between 700 and 6500, [vehicle_speed]
    between 0 and 220, [gear] between 1 and 8, [torque] between 0 and
    450, the coolant between 70 and 110, bank 2 following bank 1
    ([EGT_bank2 = EGT_bank1 - 10], [exhaust_press_bank2 =
    exhaust_press_bank1 - 5]), and [faultword1 = 0]. *)
Theorem synthetic_rows_in_range (no_log : bool) (max_points : Z)
    (t0 : spec_float) (w0 : world) (evs : list event) (row : gmap string Z) :
  main_init true no_log max_points t0 = Some w0 →
  latest_row (run w0 evs) = Some row →
  ∃ values, csv_cells row = map Some values ∧ demo_row_ok values = true.
Proof.
  intros Hinit Hrow.
  destruct (run_invariant demo_world_ok demo_world_ok_step evs w0
              (demo_world_ok_init _ _ _ _ Hinit)) as (_ & _ & Hrows & _).
  destruct (Hrows row Hrow) as (values & -> & Hok).
  exists values. split; [|done].
  apply csv_cells_dict_zip. by apply demo_row_ok_inv.
Qed.

Lemma synthetic_rows_in_range_witness :
  ∃ values,
    csv_cells (dict_zip FIELDS [3; 950; 0; 1; 65; 70; 402; 392; 22; 208; 2719;
                                1219; 97; 92; 13834; 5016; 0]%Z)
    = map Some values
    ∧ demo_row_ok values = true.
Proof.
  apply (synthetic_rows_in_range true 1200 DEMO_T0 W_DEMO
           (map DemoIter DEMO_CLOCKS)); reflexivity.
Defined.

(** X8: in demo mode the fault overlay is never shown: the synthetic
    fault word is 0 in every row, so that every tick leaves the overlay
    empty. *)
Theorem synthetic_source_shows_no_fault (no_log : bool) (max_points : Z)
    (t0 : spec_float) (w0 : world) (evs : list event) :
  main_init true no_log max_points t0 = Some w0 →
  fault_text (run w0 evs) = None
  ∧ ∀ row, latest_row (run w0 evs) = Some row →
           row !! "faultword1"%string = Some 0%Z.
Proof.
  intros Hinit.
  destruct (run_invariant demo_world_ok demo_world_ok_step evs w0
              (demo_world_ok_init _ _ _ _ Hinit)) as (_ & _ & Hrows & _ & Hft).
  split; [done|]. intros row Hrow.
  destruct (Hrows row Hrow) as (values & -> & Hok).
  destruct (demo_row_ok_inv values Hok) as [Hl H16].
  by rewrite (dict_zip_lookup FIELDS values 16 "faultword1" FIELDS_NoDup Hl eq_refl).
Qed.

Lemma synthetic_source_shows_no_fault_witness :
  fault_text (run W_DEMO (map DemoIter DEMO_CLOCKS ++ [Update 7])) = None.
Proof.
  exact (proj1 (synthetic_source_shows_no_fault true 1200 DEMO_T0 W_DEMO
                  (map DemoIter DEMO_CLOCKS ++ [Update 7]) eq_refl)).
Defined.

(* ================================================================= *)
(** ** What the reader tolerates in a line *)


Section Tolerance.

Import PyText.
Local Open Scope N_scope.

Lemma split_app_sep (sep : N) (a b : text) :
  split sep (a ++ sep :: b) = split sep a ++ split sep b.
Proof.
  induction a as [|c a IH]; cbn [app split].
  - by rewrite N.eqb_refl.
  - destruct (c =? sep); [by rewrite IH|].
    rewrite IH. destruct (split sep a) as [|tok toks] eqn:Ha; [|done].
    by destruct (split_not_nil sep a).
Qed.

Lemma parts_of_app_sep (a b : text) :
  parts_of (a ++ SEMI :: b) = parts_of a ++ parts_of b.
Proof. unfold parts_of. by rewrite split_app_sep, List.filter_app. Qed.

Lemma parts_of_nil : parts_of [] = [].
Proof. reflexivity. Qed.

Lemma parts_of_cons_sep (b : text) : parts_of (SEMI :: b) = parts_of b.
Proof. exact (parts_of_app_sep [] b). Qed.

(** Acceptance depends on the non-empty fields only. *)
Lemma parse_text_accepted (t : text) (row : gmap string Z) :
  parse_text t = Accepted row
  ↔ length (parts_of t) = N_FIELDS
    ∧ ∃ values, ints_of (parts_of t) = Some values
                ∧ row = dict_zip FIELDS values.
Proof.
  unfold parse_text. split.
  - destruct (is_nil t); [done|].
    destruct (Nat.eqb_spec (length (parts_of t)) N_FIELDS) as [Heq|Hne];
      cbn [negb]; [|done].
    destruct (ints_of (parts_of t)) as [values|]; [|done].
    intros [= <-]. eauto.
  - intros (Hlen & values & Hints & ->).
    destruct t as [|c t]; [done|]. cbn [is_nil].
    by rewrite Hlen, Nat.eqb_refl, Hints.
Qed.

Lemma parse_text_same_parts (t1 t2 : text) (row : gmap string Z) :
  parts_of t1 = parts_of t2 →
  parse_text t1 = Accepted row ↔ parse_text t2 = Accepted row.
Proof. intros Hp. by rewrite !parse_text_accepted, Hp. Qed.

(** *** A byte that is not ASCII *)

Lemma decode_drop_high (b : N) (r : list N) :
  0x80 ≤ b → match r with [] => True | c :: _ => c < 0x80 end →
  utf8_decode_ignore (b :: r) = utf8_decode_ignore r.
Proof.
  intros Hb Hr. cbn [utf8_decode_ignore].
  destruct (N.ltb_spec b 0x80); [lia|].
  destruct r as [|c r]; [by repeat destruct (in_range _ _ b)|].
  rewrite (is_cont_ascii c Hr), (second_ok_ascii b c Hr). cbn [andb].
  repeat destruct (in_range _ _ b); try done.
  all: by destruct r as [|? [|? ?]].
Qed.

Lemma decode_app_ascii (a r : list N) :
  Forall (fun c => c < 0x80) a →
  utf8_decode_ignore (a ++ r) = a ++ utf8_decode_ignore r.
Proof.
  induction 1 as [|c a Hc _ IH]; [done|].
  cbn [app]. by rewrite decode_ascii_cons, IH.
Qed.

Lemma decode_noise (a : list byte) (b : byte) (c : list byte) :
  Forall (fun x => Byte.to_N x < 0x80) a → 0x80 ≤ Byte.to_N b →
  match c with [] => True | c0 :: _ => Byte.to_N c0 < 0x80 end →
  decode (a ++ b :: c) = decode (a ++ c).
Proof.
  intros Ha Hb Hc. unfold decode. rewrite !map_app. cbn [map].
  assert (Ha' : Forall (fun x => x < 0x80) (map Byte.to_N a))
    by (by apply Forall_map).
  rewrite !decode_app_ascii by done. f_equal.
  apply decode_drop_high; [done|]. by destruct c.
Qed.

(** *** Blanks around a number *)










End Tolerance.

(** X9: empty fields do not count: the fields of a text are those of its
    parts on either side of a delimiter, so that a delimiter written
    twice, before the first field or after the last one (as the firmware
    does) changes neither whether the line is accepted nor the row it
    gives. *)
Theorem empty_fields_are_ignored (a b : PyText.text) (row : gmap string Z) :
  parts_of (a ++ PyText.SEMI :: b) = parts_of a ++ parts_of b
  ∧ (parse_text (a ++ PyText.SEMI :: PyText.SEMI :: b) = Accepted row
     ↔ parse_text (a ++ PyText.SEMI :: b) = Accepted row)
  ∧ (parse_text (PyText.SEMI :: b) = Accepted row
     ↔ parse_text b = Accepted row)
  ∧ (parse_text (a ++ [PyText.SEMI]) = Accepted row
     ↔ parse_text a = Accepted row).
Proof.
  split; [apply parts_of_app_sep|].
  split; [|split]; apply parse_text_same_parts.
  - by rewrite !parts_of_app_sep, parts_of_cons_sep.
  - apply parts_of_cons_sep.
  - by rewrite parts_of_app_sep, parts_of_nil, app_nil_r.
Qed.





(** X11: a stray byte is swallowed: a byte of 0x80 or more between ASCII
    bytes (line noise) is dropped by the decoder without a trace, and
    the line is read as if the byte had not been sent; its neighbours
    join, so that the digits on either side of it form one number. *)
Theorem stray_byte_is_dropped (a : list byte) (b c0 : byte) (c : list byte) :
  Forall (fun x => (Byte.to_N x < 0x80)%N) a →
  (0x80 ≤ Byte.to_N b)%N → (Byte.to_N c0 < 0x80)%N →
  text_of_line (a ++ b :: c0 :: c) = text_of_line (a ++ c0 :: c)
  ∧ parse_line (a ++ b :: c0 :: c) = parse_line (a ++ c0 :: c).
Proof.
  intros Ha Hb Hc0.
  assert (Htext : text_of_line (a ++ b :: c0 :: c) = text_of_line (a ++ c0 :: c)).
  { unfold text_of_line.
    assert (Hlast : ∀ pre, last (pre ++ c0 :: c) = last (c0 :: c)).
    { intros pre. destruct (c0 :: c) as [|x l] eqn:Hl using rev_ind; [done|].
      by rewrite app_assoc, !last_snoc. }
    assert (Hcr : PyText.endswith_cr (a ++ b :: c0 :: c)
                  = PyText.endswith_cr (a ++ c0 :: c)).
    { unfold PyText.endswith_cr.
      change (a ++ b :: c0 :: c) with (a ++ [b] ++ c0 :: c).
      by rewrite app_assoc, !Hlast. }
    rewrite Hcr. destruct (PyText.endswith_cr (a ++ c0 :: c)).
    - f_equal.
      assert (Hrm : ∀ pre, removelast (pre ++ c0 :: c)
                           = pre ++ removelast (c0 :: c)).
      { intros pre. by apply removelast_app. }
      change (a ++ b :: c0 :: c) with (a ++ [b] ++ c0 :: c).
      rewrite app_assoc, !Hrm, <- app_assoc. cbn [app].
      apply decode_noise; [done..|].
      destruct c; cbn [removelast]; done.
    - f_equal. by apply decode_noise. }
  split; [done|]. by rewrite !parse_line_as_text, Htext.
Qed.

Lemma stray_byte_is_dropped_witness :
  parse_line (bytes_of "1;800;0;1;50;70;350;340;20;200;3000;1000;100;9"
              ++ xff :: bytes_of "5;13800;5020;0" ++ [x0a])
  = parse_line LINE1.
Proof.
  refine (proj2 (stray_byte_is_dropped
    (bytes_of "1;800;0;1;50;70;350;340;20;200;3000;1000;100;9") xff
    "5"%byte (bytes_of ";13800;5020;0" ++ [x0a]) _ _ _)).
  - repeat constructor.
  - vm_compute. discriminate.
  - reflexivity.
Defined.



(* ================================================================= *)
(** ** The flags and the low byte of the fault word *)

Section FaultBits.

Local Open Scope Z_scope.

Lemma flags_filter (fw : Z) :
  faultword_to_flags fw = map snd (List.filter (bit_set fw) mapping).
Proof. unfold faultword_to_flags. by rewrite flags_fold by apply mapping_nonneg. Qed.

Lemma mapping_bits_range (bn : Z * string) : In bn mapping → 0 ≤ bn.1 < 8.
Proof. unfold mapping. simpl. intuition (subst; simpl; lia). Qed.

Lemma mapping_bit_has_name (k : Z) : 0 ≤ k < 8 → ∃ n, In (k, n) mapping.
Proof.
  intros Hk.
  assert (Hc : k = 0 ∨ k = 1 ∨ k = 2 ∨ k = 3 ∨ k = 4 ∨ k = 5 ∨ k = 6 ∨ k = 7)
    by lia.
  unfold mapping. decompose [or] Hc; subst; eexists; simpl; eauto 10.
Qed.

Lemma mapping_name_has_one_bit (i j : Z) (n : string) :
  In (i, n) mapping → In (j, n) mapping → i = j.
Proof. unfold mapping. simpl. intuition congruence. Qed.

(** A label is in the list exactly when its bit is set. *)
Lemma flag_iff_bit (fw i : Z) (n : string) :
  In (i, n) mapping →
  In n (faultword_to_flags fw) ↔ Z.testbit fw i = true.
Proof.
  intros Hin. rewrite flags_filter, in_map_iff. split.
  - intros ([j n'] & Hn & [Hj Hbit]%filter_In). simpl in Hn. subst n'.
    by rewrite (mapping_name_has_one_bit i j n Hin Hj).
  - intros Hbit. exists (i, n). split; [done|]. by apply filter_In.
Qed.

Lemma testbit_255 (k : Z) : 0 ≤ k → Z.testbit 255 k = (k <? 8).
Proof.
  intros Hk. change 255 with (Z.ones 8).
  destruct (Z.ltb_spec k 8).
  - apply Z.ones_spec_low. lia.
  - apply Z.ones_spec_high. lia.
Qed.

Lemma land_255_bits (a b : Z) :
  Z.land a 255 = Z.land b 255
  ↔ ∀ k, 0 ≤ k < 8 → Z.testbit a k = Z.testbit b k.
Proof.
  split.
  - intros Heq k Hk.
    assert (Hbit : ∀ x, Z.testbit (Z.land x 255) k = Z.testbit x k).
    { intros x. rewrite Z.land_spec, testbit_255 by lia.
      destruct (Z.ltb_spec k 8); [apply andb_true_r|lia]. }
    by rewrite <- (Hbit a), <- (Hbit b), Heq.
  - intros Hbits. apply Z.bits_inj'. intros k Hk.
    rewrite !Z.land_spec, testbit_255 by done.
    destruct (Z.ltb_spec k 8); [|by rewrite !andb_false_r].
    rewrite Hbits by lia. done.
Qed.

End FaultBits.

(** X13: the list of flags and the low byte of the fault word determine
    each other: two fault words give the same flags exactly when they
    agree on their bits 0 to 7, whatever their other bits (and their
    sign) are. In particular the list is empty exactly when the low byte
    is zero, which is when the overlay of a non-zero word shows no flag. *)
Theorem flags_determine_low_byte (a b : Z) :
  (faultword_to_flags a = faultword_to_flags b
   ↔ Z.land a 255 = Z.land b 255)
  ∧ (faultword_to_flags a = [] ↔ Z.land a 255 = 0%Z).
Proof.
  assert (Hiff : ∀ x y, faultword_to_flags x = faultword_to_flags y
                        ↔ Z.land x 255 = Z.land y 255).
  { intros x y. rewrite land_255_bits. split.
    - intros Heq k Hk. destruct (mapping_bit_has_name k Hk) as [n Hn].
      pose proof (flag_iff_bit x k n Hn) as Hx.
      pose proof (flag_iff_bit y k n Hn) as Hy.
      rewrite Heq in Hx. rewrite Hx in Hy.
      destruct (Z.testbit x k), (Z.testbit y k); try done.
      + symmetry. by apply Hy.
      + by apply Hy.
    - intros Hbits. rewrite !flags_filter. f_equal.
      apply filter_ext_in. intros bn Hbn. unfold bit_set.
      apply Hbits. by apply mapping_bits_range. }
  split; [apply Hiff|].
  change (@nil string) with (faultword_to_flags 0).
  change 0%Z with (Z.land 0 255) at 2. apply Hiff.
Qed.

(* ================================================================= *)
(** ** The reader over a stream of lines *)




(* ================================================================= *)
(** ** The constructor of the reader *)


(** X15: which port the reader opens: in serial mode the constructor
    returns exactly when pyserial is there and the port it then opens,
    the one given or else the only one listed, opens; it never picks one
    of several ports, and with a port given it does not depend on the
    list. In demo mode it returns whatever the machine has, and holds no
    serial object. *)
Theorem reader_opens_the_only_port (h : host) (port : option string)
    (baud : Z) (r : reader) :
  (reader_init h port baud false = inr r
   ↔ pyserial h = true
     ∧ ∃ p, (port = Some p ∨ (port = None ∧ comports h = [p]))
            ∧ serial_opens h p baud = true
            ∧ r = Reader false (Some p) (Some p)
                         (match port with Some _ => [] | None => [p] end))
  ∧ (reader_init h None baud false = inl MultipleSerialPorts
     ↔ pyserial h = true ∧ (2 ≤ length (comports h))%nat)
  ∧ (reader_init h None baud false = inl NoSerialPorts
     ↔ pyserial h = true ∧ comports h = [])
  ∧ (∀ (p : string) (ports : list string),
       reader_init h (Some p) baud false
       = reader_init (Host (pyserial h) ports (serial_opens h)) (Some p) baud false)
  ∧ (∀ h', reader_init h' port baud true = inr (Reader true port None [])).
Proof.
  unfold reader_init, select_port. split; [|split; [|split; [|split]]].
  - split.
    + destruct (pyserial h); cbn [negb]; [|done]. destruct port as [p|].
      * destruct (serial_opens h p baud) eqn:Ho; [|done].
        intros [= <-]. split; [done|]. exists p. auto.
      * destruct (comports h) as [|p [|q ports]]; [done| |done].
        destruct (serial_opens h p baud) eqn:Ho; [|done].
        intros [= <-]. split; [done|]. exists p. auto.
    + intros (-> & p & [-> | [-> ->]] & -> & ->); done.
  - destruct (pyserial h); cbn [negb]; [|by split; [|intros []]].
    destruct (comports h) as [|p [|q ports]]; cbn [length].
    + split; [done|]. intros [_ ?]. lia.
    + destruct (serial_opens h p baud); (split; [done|]); intros [_ ?]; lia.
    + split; [|done]. intros _. split; [done|lia].
  - destruct (pyserial h); cbn [negb]; [|by split; [|intros []]].
    destruct (comports h) as [|p [|q ports]].
    + done.
    + by destruct (serial_opens h p baud); split; try done; intros [].
    + by split; [|intros []].
  - done.
  - done.
Qed.
